(** * ReCall: the page-merge pipeline, the graph store search and the layout hook

    A shallow embedding of
    - [processPageData] of the background script (the merge of one extracted
      page into the persisted graph),
    - the graph store of [src/lib/stores/graphStore.ts] (position updates,
      reset, [searchByKeyword]),
    - the layout hook of [src/hooks/useGraphData.ts]
      ([generateDeterministicPosition], node creation, the layout cache),
    followed by the properties of the specification that concern them. *)

From Stdlib Require Import Ascii QArith Qround Qabs Lqa.
From Stdlib Require String.
From stdpp Require Import base strings list gmap pretty.

(** ** JavaScript strings

    Strings are Rocq strings, one character per UTF-16 code unit, over the
    code units below 256: [s.length] is [String.length], [charCodeAt] is the
    character code.  On that range [toLowerCase] adds 32 to the letters A to Z
    (65 to 90) and to the capitals from 192 to 222, the multiplication sign
    215 apart, and leaves every other code unit in place. *)

Definition toLowerCase_char (c : ascii) : ascii :=
  let n := N_of_ascii c in
  if ((65 <=? n) && (n <=? 90)
      || (192 <=? n) && (n <=? 222) && negb (n =? 215))%N
  then ascii_of_N (n + 32) else c.

Fixpoint toLowerCase (s : string) : string :=
  match s with
  | EmptyString => EmptyString
  | String c s' => String (toLowerCase_char c) (toLowerCase s')
  end.

(** [s.includes(sub)]: [sub] occurs in [s] at some offset. *)
Fixpoint includes (s sub : string) : bool :=
  String.prefix sub s ||
  match s with
  | EmptyString => false
  | String _ s' => includes s' sub
  end.

(** [parts.join(sep)]. *)
Fixpoint join (sep : string) (parts : list string) : string :=
  match parts with
  | [] => ""
  | [p] => p
  | p :: ps => p +:+ sep +:+ join sep ps
  end.

(** ** JavaScript numbers

    A number is NaN or a finite value, kept as an exact rational.  The
    arithmetic of the layout code rounds each result to a double; the rounding
    is the parameter [fl] of the definitions that compute (see
    [generateDeterministicPosition]).  Infinities, which no definition below
    can produce from finite inputs of ordinary size, are left out. *)

Inductive number : Type :=
  | NaN
  | Num (q : Q).

(** ** The graph data model ([~/types]) *)

Record Position := mkPosition { x : number; y : number }.

Record WebsiteNode := mkWebsiteNode {
  ws_id : string;
  ws_url : string;
  ws_title : string;
  ws_favicon : option string;
  ws_visitedAt : Z;
  ws_lastPosition : option Position
}.

Record KeywordNode := mkKeywordNode {
  kw_id : string;
  kw_text : string;
  kw_sourceWebsiteId : option string;
  kw_position : option Position
}.

Record MentionNode := mkMentionNode {
  mn_id : string;
  mn_text : string;
  mn_sourceWebsiteId : string;
  mn_context : string;
  mn_position : option Position
}.

(** [WebsiteToKeywordEdge] and [WebsiteToMentionEdge] have the same shape. *)
Record Edge := mkEdge {
  e_id : string;
  e_source : string;
  e_target : string
}.

Record GraphData := mkGraphData {
  websites : list WebsiteNode;
  keywords : list KeywordNode;
  mentions : list MentionNode;
  websiteToKeywordEdges : list Edge;
  websiteToMentionEdges : list Edge
}.

Definition emptyGraphData : GraphData := mkGraphData [] [] [] [] [].

(** ** The background script: [processPageData] *)

Record Mention := mkMention { m_text : string; m_context : string }.

(** The record a content script sends.  A page without a title has the empty
    string there ([document.title] of an untitled page); the merge reads [url]
    and [title] only to compare, copy and print them, so a record in which
    one of them is absent altogether takes the same path as the record with
    the empty string in its place. *)
Record ExtractedPageData := mkExtractedPageData {
  url : string;
  title : string;
  favicon : string;
  d_keywords : list string;
  d_mentions : list Mention;
  mainContent : option string
}.

(** What the script reads from its surroundings.  Every reading advances a
    tick counter that is threaded through the code: [Date_now t] is what
    [Date.now()] returns at tick [t], [Math_random t] is what
    [Math.random().toString(36).substring(2, 9)] returns there, and
    [Gemini_relevant t content] is the verdict of the remote classifier called
    by [isContentRelevantToUserPreferences]. *)
Record Env := mkEnv {
  Date_now : nat → Z;
  Math_random : nat → string;
  Gemini_relevant : nat → string → bool
}.

(** The module-level settings the merge is gated on. *)
Record Settings := mkSettings {
  preferences : string;
  geminiApiKey : string
}.

(** [`${prefix}-${Date.now()}-${Math.random().toString(36).substring(2, 9)}`] *)
Definition freshId (env : Env) (prefix : string) (t : nat) : string :=
  prefix +:+ "-" +:+ pretty (Date_now env t) +:+ "-" +:+ Math_random env t.

Section merge.
Context (env : Env).

(** Lines 477-500: update the website with this url, or append a new one.
    Returns the website id with the new list. *)
Definition upsertWebsite (data : ExtractedPageData) (t : nat)
    (ws : list WebsiteNode) : string * list WebsiteNode * nat :=
  match list_find (λ w, ws_url w = url data) ws with
  | Some (i, w) =>
      (ws_id w,
       <[i := mkWebsiteNode (ws_id w) (ws_url w) (title data)
                (Some (favicon data)) (Date_now env t) (ws_lastPosition w)]> ws,
       S t)
  | None =>
      let websiteId := freshId env "website" t in
      (websiteId,
       ws ++ [mkWebsiteNode websiteId (url data) (title data)
                (Some (favicon data)) (Date_now env (S t)) None],
       S (S t))
  end.

(** Lines 517-521: the positions of the keywords this website owned, by
    lowercase text; a later entry overwrites an earlier one.  Names that a
    plain object inherits from its prototype are outside the model. *)
Definition savePositions (existingKeywords : list KeywordNode)
    : gmap string (option Position) :=
  foldl (λ m k, <[toLowerCase (kw_text k) := kw_position k]> m) ∅
        existingKeywords.

Definition lookupPosition (keywordPositions : gmap string (option Position))
    (key : string) : option Position :=
  default None (keywordPositions !! key).

(** Lines 523-557: the loop over the keywords of the page. *)
Fixpoint keywordLoop (websiteId : string)
    (keywordPositions : gmap string (option Position))
    (kws : list string) (ks : list KeywordNode) (es : list Edge) (t : nat)
    : list KeywordNode * list Edge * nat :=
  match kws with
  | [] => (ks, es, t)
  | keywordText :: rest =>
      if (String.length keywordText <? 3)
      then keywordLoop websiteId keywordPositions rest ks es t
      else
        let normalizedText := toLowerCase keywordText in
        match list_find (λ k, toLowerCase (kw_text k) = normalizedText) ks with
        | Some (_, existingKeyword) =>
            keywordLoop websiteId keywordPositions rest ks
              (es ++ [mkEdge (freshId env "edge" t) websiteId
                        (kw_id existingKeyword)])
              (S t)
        | None =>
            let keywordId := freshId env "keyword" t in
            keywordLoop websiteId keywordPositions rest
              (ks ++ [mkKeywordNode keywordId keywordText None
                        (lookupPosition keywordPositions normalizedText)])
              (es ++ [mkEdge (freshId env "edge" (S t)) websiteId keywordId])
              (S (S t))
        end
  end.

(** Lines 574-607: the loop over the mentions of the page. *)
Fixpoint mentionLoop (websiteId : string) (existingMentions : list MentionNode)
    (mds : list Mention) (ms : list MentionNode) (es : list Edge) (t : nat)
    : list MentionNode * list Edge * nat :=
  match mds with
  | [] => (ms, es, t)
  | mentionData :: rest =>
      if (String.length (m_text mentionData) <? 2)
         || (String.length (m_context mentionData) =? 0)
      then mentionLoop websiteId existingMentions rest ms es t
      else
        let existingMention :=
          list_find (λ m, toLowerCase (mn_text m)
                          = toLowerCase (m_text mentionData))
                    existingMentions in
        let mentionId := freshId env "mention" t in
        mentionLoop websiteId existingMentions rest
          (ms ++ [mkMentionNode mentionId (m_text mentionData) websiteId
                    (m_context mentionData)
                    (existingMention ≫= λ im, mn_position im.2)])
          (es ++ [mkEdge (freshId env "edge" (S t)) websiteId mentionId])
          (S (S t))
  end.

(** Lines 616-638: a graph left without keyword and keyword edge gets a
    test keyword owned by the first website, and an edge to it. *)
Definition ensureTestKeyword (g : GraphData) (t : nat) : GraphData * nat :=
  match websites g, websiteToKeywordEdges g, keywords g with
  | w0 :: _, [], [] =>
      let testKeywordId := "keyword-test-" +:+ pretty (Date_now env t) in
      (mkGraphData (websites g)
         [mkKeywordNode testKeywordId "Test Keyword" (Some (ws_id w0)) None]
         (mentions g)
         [mkEdge ("edge-test-" +:+ pretty (Date_now env (S t))) (ws_id w0)
            testKeywordId]
         (websiteToMentionEdges g),
       S (S t))
  | _, _, _ => (g, t)
  end.

(** Lines 477-638: the body of the [storage.get] callback, from the graph
    read to the graph written. *)
Definition mergePage (data : ExtractedPageData) (graphData : GraphData)
    (t : nat) : GraphData * nat :=
  let '(websiteId, ws, t) := upsertWebsite data t (websites graphData) in
  let existingKeywords :=
    filter (λ k, kw_sourceWebsiteId k = Some websiteId) (keywords graphData) in
  let ks0 :=
    filter (λ k, kw_sourceWebsiteId k ≠ Some websiteId) (keywords graphData) in
  let kes0 :=
    filter (λ e, e_source e ≠ websiteId) (websiteToKeywordEdges graphData) in
  let keywordPositions := savePositions existingKeywords in
  let '(ks, kes, t) :=
    keywordLoop websiteId keywordPositions (d_keywords data) ks0 kes0 t in
  let existingMentions :=
    filter (λ m, mn_sourceWebsiteId m = websiteId) (mentions graphData) in
  let ms0 :=
    filter (λ m, mn_sourceWebsiteId m ≠ websiteId) (mentions graphData) in
  let mes0 :=
    filter (λ e, e_source e ≠ websiteId) (websiteToMentionEdges graphData) in
  let '(ms, mes, t) :=
    mentionLoop websiteId existingMentions (d_mentions data) ms0 mes0 t in
  ensureTestKeyword (mkGraphData ws ks ms kes mes) t.

(** Lines 435-441: the text handed to the classifier. *)
Definition pageContent (data : ExtractedPageData) : string :=
  join " "
    ([title data; url data]
     ++ match mainContent data with
        | Some c => if (String.length c =? 0) then []
                    else [String.substring 0 4000 c]
        | None => []
        end
     ++ d_keywords data
     ++ fmap (λ m, m_text m +:+ ": " +:+ m_context m) (d_mentions data)).

(** Lines 197-203 and 444-455: the merge goes ahead only when preferences
    and an API key are set and the classifier finds the page relevant. *)
Definition accepted (cfg : Settings) (data : ExtractedPageData) (t : nat)
    : bool :=
  negb (String.length (preferences cfg) =? 0)
  && negb (String.length (geminiApiKey cfg) =? 0)
  && Gemini_relevant env t (pageContent data).
End merge.

(** What [chrome.storage.local] holds under the keys the script writes. *)
Record GraphDataCache := mkGraphDataCache { timestamp : Z; nodeCount : nat }.

Record Storage := mkStorage {
  graphData : option GraphData;
  graphDataCache : option GraphDataCache
}.

Record World := mkWorld { storage : Storage; tick : nat }.

(** [result.graphData || { websites: [], ... }] *)
Definition currentGraph (s : Storage) : GraphData :=
  default emptyGraphData (graphData s).

(** Lines 430-673.  A skipped merge returns before any storage access; an
    accepted one writes the merged graph, then the cache record.  (A write
    that fails is only logged by the script; the writes are taken to
    succeed.) *)
Definition processPageData (env : Env) (cfg : Settings)
    (data : ExtractedPageData) (w : World) : World :=
  if accepted env cfg data (tick w) then
    let '(g, t) := mergePage env data (currentGraph (storage w)) (S (tick w)) in
    mkWorld
      (mkStorage (Some g)
         (Some (mkGraphDataCache (Date_now env t)
                  (length (websites g) + length (keywords g)
                   + length (mentions g)))))
      (S t)
  else w.

(** The answer a message handler gives with [sendResponse]. *)
Record Response := mkResponse { success : bool; reason : option string }.

(** Lines 353-360: the text the [savePageData] handler classifies. *)
Definition handlerContent (data : ExtractedPageData) : string :=
  match mainContent data with
  | Some c =>
      if (String.length c =? 0)
      then join " " ([title data; url data] ++ d_keywords data
                     ++ fmap (λ m, m_text m +:+ ": " +:+ m_context m)
                             (d_mentions data))
      else c
  | None =>
      join " " ([title data; url data] ++ d_keywords data
                ++ fmap (λ m, m_text m +:+ ": " +:+ m_context m)
                        (d_mentions data))
  end.

(** Lines 338-391: the [savePageData] message.  [tabId] is [sender.tab?.id];
    an absent id and the id 0 are both falsy.  With preferences and an API key
    set the handler asks the classifier itself, and then calls
    [processPageData], which asks again. *)
Definition savePageData (env : Env) (cfg : Settings) (tabId : option Z)
    (data : ExtractedPageData) (w : World) : World * Response :=
  match tabId with
  | None => (w, mkResponse false (Some "No tab ID"))
  | Some 0%Z => (w, mkResponse false (Some "No tab ID"))
  | Some _ =>
      if negb (String.length (preferences cfg) =? 0)
         && negb (String.length (geminiApiKey cfg) =? 0)
      then
        if Gemini_relevant env (tick w) (handlerContent data)
        then (processPageData env cfg data (mkWorld (storage w) (S (tick w))),
              mkResponse true None)
        else (mkWorld (storage w) (S (tick w)),
              mkResponse false (Some "Content doesn't match user preferences"))
      else (processPageData env cfg data w, mkResponse true None)
  end.


(** ** The background script: which tabs are tracked *)

Record UserPreferences := mkUserPreferences {
  trackedDomains : list string;
  excludedDomains : list string;
  enabled : bool
}.

(** Lines 30-44: the preferences the script starts with. *)
Definition defaultUserPreferences : UserPreferences :=
  mkUserPreferences []
    ["chrome://"; "chrome-extension://"; "edge://"; "about:"; "file://";
     "localhost"; "127.0.0.1"; "192.168."]
    true.

(** What an [async] function returns: a promise, here of a value already
    computed.  A promise is an object, and an object is truthy whatever it
    holds. *)
Inductive Promise (A : Type) : Type :=
  | Resolved (a : A).
Arguments Resolved {A} a.

Definition await {A : Type} (p : Promise A) : A :=
  match p with Resolved a => a end.

Definition ToBoolean_object {A : Type} (o : Promise A) : bool := true.

Record TabState := mkTabState {
  currentTabId : option Z;
  currentTabUrl : option string
}.

(** What a tab event makes the script do next. *)
Inductive TabAction : Type :=
  | RequestPageData (tabId : Z)
  | NoRequest.

Section tracking.
(** [new URL(url).hostname], or [None] where the constructor throws. *)
Context (hostname : string → option string).

(** Lines 134-142. *)
Definition extractDomain (url : string) : string :=
  default "" (hostname url).

(** Lines 158-166: the loop over the excluded patterns leaves with [false]
    at the first one that matches. *)
Fixpoint excludedBy (url domain : string) (patterns : list string) : bool :=
  match patterns with
  | [] => false
  | excluded :: rest =>
      if String.prefix excluded url || includes domain excluded then true
      else excludedBy url domain rest
  end.

(** [array.some(p)] *)
Fixpoint some {A : Type} (p : A → bool) (l : list A) : bool :=
  match l with
  | [] => false
  | a :: rest => if p a then true else some p rest
  end.

(** Lines 145-194. *)
Definition shouldTrackUrl (userPreferences : UserPreferences) (url : string)
    : Promise bool :=
  Resolved
    (if negb (enabled userPreferences) then false
     else
       let domain := extractDomain url in
       if (String.length domain =? 0) then false
       else if excludedBy url domain (excludedDomains userPreferences) then false
       else
         match trackedDomains userPreferences with
         | [] => true
         | _ :: _ =>
             some (λ tracked, includes domain tracked)
                  (trackedDomains userPreferences)
         end).

(** Lines 284-324: a tab has been updated.  [complete] says whether
    [changeInfo.status] is ["complete"]; the test on [shouldTrackUrl] is made
    on the promise it returns. *)
Definition onUpdated (userPreferences : UserPreferences) (tabId : Z)
    (complete : bool) (tabUrl : option string) (st : TabState)
    : TabState * TabAction :=
  match tabUrl with
  | Some url =>
      if complete && negb (String.length url =? 0) then
        if ToBoolean_object (shouldTrackUrl userPreferences url)
        then (mkTabState (Some tabId) (Some url), RequestPageData tabId)
        else (st, NoRequest)
      else (st, NoRequest)
  | None => (st, NoRequest)
  end.

(** Lines 327-334: a tab has been activated. *)
Definition onActivated (userPreferences : UserPreferences) (tabId : Z)
    (tabUrl : option string) (st : TabState) : TabState :=
  match tabUrl with
  | Some url =>
      if negb (String.length url =? 0)
         && ToBoolean_object (shouldTrackUrl userPreferences url)
      then mkTabState (Some tabId) (Some url)
      else st
  | None => st
  end.
End tracking.

(** ** The graph store ([graphStore.ts])

    The store state is a [GraphData]; every operation below hands the new state
    to [saveToChromeStorage], so the store and [chrome.storage.local] hold the
    same graph. *)
Module GraphStore.

Definition updateWebsitePosition (id : string) (position : Position)
    (state : GraphData) : GraphData :=
  mkGraphData
    (fmap (λ website,
            if decide (ws_id website = id)
            then mkWebsiteNode (ws_id website) (ws_url website)
                   (ws_title website) (ws_favicon website)
                   (ws_visitedAt website) (Some position)
            else website) (websites state))
    (keywords state) (mentions state)
    (websiteToKeywordEdges state) (websiteToMentionEdges state).

Definition updateKeywordPosition (id : string) (position : Position)
    (state : GraphData) : GraphData :=
  mkGraphData (websites state)
    (fmap (λ keyword,
            if decide (kw_id keyword = id)
            then mkKeywordNode (kw_id keyword) (kw_text keyword)
                   (kw_sourceWebsiteId keyword) (Some position)
            else keyword) (keywords state))
    (mentions state)
    (websiteToKeywordEdges state) (websiteToMentionEdges state).

Definition updateMentionPosition (id : string) (position : Position)
    (state : GraphData) : GraphData :=
  mkGraphData (websites state) (keywords state)
    (fmap (λ mention,
            if decide (mn_id mention = id)
            then mkMentionNode (mn_id mention) (mn_text mention)
                   (mn_sourceWebsiteId mention) (mn_context mention)
                   (Some position)
            else mention) (mentions state))
    (websiteToKeywordEdges state) (websiteToMentionEdges state).


Record SearchResults := mkSearchResults {
  r_websites : list WebsiteNode;
  r_keywords : list KeywordNode;
  r_mentions : list MentionNode
}.

(** Lines 411-445.  The set holds the [sourceWebsiteId] of every match,
    [None] standing for the [undefined] of a keyword that has none. *)
Definition searchByKeyword (keyword : string) (state : GraphData)
    : SearchResults :=
  let lowercaseKeyword := toLowerCase keyword in
  let matchingKeywords :=
    filter (λ k, includes (toLowerCase (kw_text k)) lowercaseKeyword)
           (keywords state) in
  let matchingMentions :=
    filter (λ m, includes (toLowerCase (mn_text m)) lowercaseKeyword
                 || includes (toLowerCase (mn_context m)) lowercaseKeyword)
           (mentions state) in
  let websiteIds : gset (option string) :=
    list_to_set (fmap kw_sourceWebsiteId matchingKeywords
                 ++ fmap (λ m, Some (mn_sourceWebsiteId m)) matchingMentions) in
  let matchingWebsites :=
    filter (λ w, bool_decide (Some (ws_id w) ∈ websiteIds)
                 || includes (toLowerCase (ws_title w)) lowercaseKeyword
                 || includes (toLowerCase (ws_url w)) lowercaseKeyword)
           (websites state) in
  mkSearchResults matchingWebsites matchingKeywords matchingMentions.

(** Lines 29-31: [generateId]. *)
Definition generateId (env : Env) (t : nat) : string :=
  pretty (Date_now env t) +:+ "-" +:+ Math_random env t.

(** Lines 179-190, 226-237, 268-279, 310-324 and 339-353: a new node or edge
    gets a generated id and goes to the end of its list; the id is
    returned. *)
Definition addWebsite (env : Env) (t : nat) (url title : string)
    (favicon : option string) (visitedAt : Z) (lastPosition : option Position)
    (state : GraphData) : string * GraphData :=
  let id := generateId env t in
  (id,
   mkGraphData
     (websites state
      ++ [mkWebsiteNode id url title favicon visitedAt lastPosition])
     (keywords state) (mentions state)
     (websiteToKeywordEdges state) (websiteToMentionEdges state)).

Definition addKeyword (env : Env) (t : nat) (text : string)
    (sourceWebsiteId : option string) (position : option Position)
    (state : GraphData) : string * GraphData :=
  let id := generateId env t in
  (id,
   mkGraphData (websites state)
     (keywords state ++ [mkKeywordNode id text sourceWebsiteId position])
     (mentions state)
     (websiteToKeywordEdges state) (websiteToMentionEdges state)).

Definition addMention (env : Env) (t : nat) (text sourceWebsiteId context : string)
    (position : option Position) (state : GraphData) : string * GraphData :=
  let id := generateId env t in
  (id,
   mkGraphData (websites state) (keywords state)
     (mentions state
      ++ [mkMentionNode id text sourceWebsiteId context position])
     (websiteToKeywordEdges state) (websiteToMentionEdges state)).

Definition addWebsiteToKeywordEdge (env : Env) (t : nat) (source target : string)
    (state : GraphData) : string * GraphData :=
  let id := generateId env t in
  (id,
   mkGraphData (websites state) (keywords state) (mentions state)
     (websiteToKeywordEdges state ++ [mkEdge id source target])
     (websiteToMentionEdges state)).

Definition addWebsiteToMentionEdge (env : Env) (t : nat) (source target : string)
    (state : GraphData) : string * GraphData :=
  let id := generateId env t in
  (id,
   mkGraphData (websites state) (keywords state) (mentions state)
     (websiteToKeywordEdges state)
     (websiteToMentionEdges state ++ [mkEdge id source target])).

(** Lines 205-223. *)
Definition removeWebsite (id : string) (state : GraphData) : GraphData :=
  mkGraphData
    (filter (λ website, ws_id website ≠ id) (websites state))
    (filter (λ k, kw_sourceWebsiteId k ≠ Some id) (keywords state))
    (filter (λ m, mn_sourceWebsiteId m ≠ id) (mentions state))
    (filter (λ e, e_source e ≠ id) (websiteToKeywordEdges state))
    (filter (λ e, e_source e ≠ id) (websiteToMentionEdges state)).

(** Lines 252-265. *)
Definition removeKeyword (id : string) (state : GraphData) : GraphData :=
  mkGraphData (websites state)
    (filter (λ keyword, kw_id keyword ≠ id) (keywords state))
    (mentions state)
    (filter (λ e, e_target e ≠ id) (websiteToKeywordEdges state))
    (websiteToMentionEdges state).

(** Lines 294-307. *)
Definition removeMention (id : string) (state : GraphData) : GraphData :=
  mkGraphData (websites state) (keywords state)
    (filter (λ mention, mn_id mention ≠ id) (mentions state))
    (websiteToKeywordEdges state)
    (filter (λ e, e_target e ≠ id) (websiteToMentionEdges state)).

(** Lines 326-337 and 355-366. *)
Definition removeWebsiteToKeywordEdge (id : string) (state : GraphData)
    : GraphData :=
  mkGraphData (websites state) (keywords state) (mentions state)
    (filter (λ edge, e_id edge ≠ id) (websiteToKeywordEdges state))
    (websiteToMentionEdges state).

Definition removeWebsiteToMentionEdge (id : string) (state : GraphData)
    : GraphData :=
  mkGraphData (websites state) (keywords state) (mentions state)
    (websiteToKeywordEdges state)
    (filter (λ edge, e_id edge ≠ id) (websiteToMentionEdges state)).

(** Lines 447-453. *)
Definition getMentionsForWebsite (websiteId : string) (state : GraphData)
    : list MentionNode :=
  filter (λ m, mn_sourceWebsiteId m = websiteId) (mentions state).

Definition getKeywordsForWebsite (websiteId : string) (state : GraphData)
    : list KeywordNode :=
  filter (λ k, kw_sourceWebsiteId k = Some websiteId) (keywords state).

End GraphStore.

(** ** Graphs the system can hold

    The graph starts empty; it changes by page merges and by the position
    updates of the store. *)
Inductive reachable : GraphData → Prop :=
  | reachable_empty : reachable emptyGraphData
  | reachable_processPageData env cfg data w :
      reachable (currentGraph (storage w)) →
      reachable (currentGraph (storage (processPageData env cfg data w)))
  | reachable_updateWebsitePosition id position g :
      reachable g → reachable (GraphStore.updateWebsitePosition id position g)
  | reachable_updateKeywordPosition id position g :
      reachable g → reachable (GraphStore.updateKeywordPosition id position g)
  | reachable_updateMentionPosition id position g :
      reachable g → reachable (GraphStore.updateMentionPosition id position g).

(** ** The layout hook ([useGraphData.ts]) *)

(** [ToInt32], the result of [x | 0]. *)
Definition toInt32 (z : Z) : Z := ((z + 2 ^ 31) mod 2 ^ 32 - 2 ^ 31)%Z.

(** One round of the loop of lines 59-62:
    [hash = (hash << 5) - hash + seed.charCodeAt(i); hash |= 0]. *)
Definition hashStep (hash : Z) (c : ascii) : Z :=
  toInt32 (toInt32 (Z.shiftl hash 5) - hash + Z.of_N (N_of_ascii c))%Z.

Fixpoint hashLoop (seed : string) (hash : Z) : Z :=
  match seed with
  | EmptyString => hash
  | String c rest => hashLoop rest (hashStep hash c)
  end.

Record Dimensions := mkDimensions { width : number; height : number }.

(** What React Flow is given.  [style] and [markerEnd] are the same constants
    on every node of a kind and on every edge; they are not carried along. *)
Inductive FlowData : Type :=
  | WebsiteData (label url title : string) (favicon : option string)
  | KeywordData (label : string) (count : Z).

Record FlowNode := mkFlowNode {
  n_id : string;
  n_type : string;
  n_data : FlowData;
  n_position : Position
}.

Record FlowEdge := mkFlowEdge {
  fe_id : string;
  fe_source : string;
  fe_target : string
}.

Record SimNode := mkSimNode {
  sn_id : string;
  sn_x : option number;
  sn_y : option number
}.

Record SimLink := mkSimLink { sl_source : string; sl_target : string }.

Record Layout := mkLayout { l_nodes : list FlowNode; l_edges : list FlowEdge }.

(** The state the hook works on: the module-level [layoutStorage], the React
    state it sets, and [simulationTicks], a probe that counts the calls of
    [simulation.tick()] made so far. *)
Record HookState := mkHookState {
  layoutStorage : gmap string Layout;
  nodes : list FlowNode;
  edges : list FlowEdge;
  isLoading : bool;
  simulationTicks : nat
}.

Section layout.
(** Rounding of an exact result to the nearest double. *)
Context (fl : Q → Q).
(** [new URL(url).hostname] without a leading [www.], or [url] itself. *)
Context (extractDomain : string → string).
(** d3-force: a simulation is set up over the nodes, the links, and the
    forces of lines 405-431 (which read the node kinds and the viewport);
    a tick moves the nodes it holds. *)
Context {Simulation : Type}.
Context (d3_forceSimulation :
           list SimNode → list SimLink → list FlowNode → Dimensions → Simulation).
Context (d3_tick : Simulation → Simulation).
Context (d3_nodes : Simulation → list SimNode).

Definition num_mul (a b : number) : number :=
  match a, b with Num p, Num q => Num (fl (p * q)%Q) | _, _ => NaN end.
Definition num_sub (a b : number) : number :=
  match a, b with Num p, Num q => Num (fl (p - q)%Q) | _, _ => NaN end.
Definition num_add (a b : number) : number :=
  match a, b with Num p, Num q => Num (fl (p + q)%Q) | _, _ => NaN end.

(** [a % b]: NaN for a zero divisor; otherwise the remainder of the
    magnitudes, with the sign of [a].  The result is exact. *)
Definition num_rem (a b : number) : number :=
  match a, b with
  | Num p, Num q =>
      if Qeq_bool q 0 then NaN
      else
        let r := (Qabs p - Qabs q * inject_Z (Qfloor (Qabs p / Qabs q)))%Q in
        Num (if Qle_bool 0 p then r else (- r)%Q)
  | _, _ => NaN
  end.

(** Lines 57-67. *)
Definition margin (maxValue : number) : number :=
  num_mul maxValue (Num (fl (1 # 10)%Q)).

Definition generateDeterministicPosition (seed : string) (maxValue : number)
    : number :=
  let hash := hashLoop seed 0 in
  num_add
    (num_rem (Num (inject_Z (Z.abs hash)))
             (num_sub maxValue (num_mul (Num 2%Q) (margin maxValue))))
    (margin maxValue).

(** Lines 291-327. *)
Definition createWebsiteNode (website : WebsiteNode) (dimensions : Dimensions)
    : FlowNode :=
  let x := generateDeterministicPosition
             ("website-" +:+ ws_id website +:+ "-x") (width dimensions) in
  let y := generateDeterministicPosition
             ("website-" +:+ ws_id website +:+ "-y") (height dimensions) in
  mkFlowNode (ws_id website) "website"
    (WebsiteData (extractDomain (ws_url website)) (ws_url website)
       (if (String.length (ws_title website) =? 0)
        then extractDomain (ws_url website) else ws_title website)
       (ws_favicon website))
    (mkPosition x y).

(** Lines 330-364.  A stored keyword has no [count]. *)
Definition createKeywordNode (keyword : KeywordNode) (dimensions : Dimensions)
    : FlowNode :=
  let x := generateDeterministicPosition
             ("keyword-" +:+ kw_id keyword +:+ "-x") (width dimensions) in
  let y := generateDeterministicPosition
             ("keyword-" +:+ kw_id keyword +:+ "-y") (height dimensions) in
  mkFlowNode (kw_id keyword) "keyword" (KeywordData (kw_text keyword) 0)
    (mkPosition x y).

(** Lines 264-280: the nodes and edges before the simulation runs. *)
Definition flowNodes (graphData : GraphData) (dimensions : Dimensions)
    : list FlowNode :=
  fmap (λ site, createWebsiteNode site dimensions) (websites graphData)
  ++ fmap (λ keyword, createKeywordNode keyword dimensions)
         (keywords graphData).

Definition flowEdges (graphData : GraphData) : list FlowEdge :=
  fmap (λ edge, mkFlowEdge (e_id edge) (e_source edge) (e_target edge))
      (websiteToKeywordEdges graphData).

Definition cacheName (cacheKey : string) : string :=
  "history-graph-" +:+ cacheKey.

(** Lines 367-460. *)
Definition applyForceLayout (cacheKey : string) (ns : list FlowNode)
    (es : list FlowEdge) (dimensions : Dimensions) (st : HookState)
    : HookState :=
  match ns with
  | [] => mkHookState (layoutStorage st) [] [] false (simulationTicks st)
  | _ =>
      let simNodes :=
        fmap (λ node, mkSimNode (n_id node) (Some (x (n_position node)))
                       (Some (y (n_position node)))) ns in
      let simLinks := fmap (λ edge, mkSimLink (fe_source edge) (fe_target edge)) es in
      let simulation :=
        Nat.iter 300 d3_tick
          (d3_forceSimulation simNodes simLinks ns dimensions) in
      let layoutedNodes :=
        fmap (λ node,
               let simNode :=
                 snd <$> list_find (λ n, sn_id n = n_id node)
                                   (d3_nodes simulation) in
               mkFlowNode (n_id node) (n_type node) (n_data node)
                 (mkPosition
                    (default (x (n_position node)) (simNode ≫= sn_x))
                    (default (y (n_position node)) (simNode ≫= sn_y))))
            ns in
      mkHookState
        (<[cacheName cacheKey := mkLayout layoutedNodes es]> (layoutStorage st))
        layoutedNodes es false (300 + simulationTicks st)
  end.

(** Lines 245-288. *)
Definition processGraphData (cacheKey : string) (graphData : GraphData)
    (dimensions : Dimensions) (st : HookState) : HookState :=
  applyForceLayout cacheKey (flowNodes graphData dimensions)
    (flowEdges graphData) dimensions st.

(** Lines 191-242, with [chrome.storage] present; [stored] is what the
    storage holds under [graphData]. *)
Definition loadHistory (cacheKey : string) (dimensions : Dimensions)
    (stored : option GraphData) (st : HookState) : HookState :=
  let st := mkHookState (layoutStorage st) (nodes st) (edges st) true
              (simulationTicks st) in
  match layoutStorage st !! cacheName cacheKey with
  | Some cachedLayout =>
      match l_nodes cachedLayout with
      | _ :: _ =>
          mkHookState (layoutStorage st) (l_nodes cachedLayout)
            (l_edges cachedLayout) false (simulationTicks st)
      | [] =>
          match stored with
          | Some graphData =>
              match websites graphData with
              | _ :: _ => processGraphData cacheKey graphData dimensions st
              | [] => mkHookState (layoutStorage st) [] [] false
                        (simulationTicks st)
              end
          | None => mkHookState (layoutStorage st) [] [] false
                      (simulationTicks st)
          end
      end
  | None =>
      match stored with
      | Some graphData =>
          match websites graphData with
          | _ :: _ => processGraphData cacheKey graphData dimensions st
          | [] => mkHookState (layoutStorage st) [] [] false
                    (simulationTicks st)
          end
      | None => mkHookState (layoutStorage st) [] [] false
                  (simulationTicks st)
      end
  end.


End layout.

(** ** Vocabulary of the statements *)

(** The identity key of a keyword node: its text in lowercase. *)
Definition kw_key (k : KeywordNode) : string := toLowerCase (kw_text k).

(** The entries of a page the loops do not skip. *)
Definition validKeywords (data : ExtractedPageData) : list string :=
  filter (λ keywordText, 3 ≤ String.length keywordText) (d_keywords data).

Definition validMentions (data : ExtractedPageData) : list Mention :=
  filter (λ m, 2 ≤ String.length (m_text m) ∧ m_context m ≠ "")
         (d_mentions data).

(** The graph a world holds after a merge. *)
Definition graphAfter (env : Env) (cfg : Settings) (data : ExtractedPageData)
    (w : World) : GraphData :=
  currentGraph (storage (processPageData env cfg data w)).

(** Edge [e] points at a keyword node of [g] whose key is that of [kw]. *)
Definition targetsKeyword (g : GraphData) (e : Edge) (kw : string) : Prop :=
  ∃ k, k ∈ keywords g ∧ kw_id k = e_target e ∧ kw_key k = toLowerCase kw.

(** Edge [e] points at a mention node of [g] made from [m] for website [W]. *)
Definition targetsMention (g : GraphData) (W : string) (e : Edge) (m : Mention)
    : Prop :=
  ∃ n, n ∈ mentions g ∧ mn_id n = e_target e ∧ mn_text n = m_text m
       ∧ mn_context n = m_context m ∧ mn_sourceWebsiteId n = W.

(** The outgoing edges of website [W]. *)
Definition outgoing (W : string) (es : list Edge) : list Edge :=
  filter (λ e, e_source e = W) es.

(** Keyword node [n] is the target of an edge from a website with url [u]. *)
Definition linked (g : GraphData) (u : string) (n : KeywordNode) : Prop :=
  ∃ s e, s ∈ websites g ∧ ws_url s = u
         ∧ e ∈ websiteToKeywordEdges g
         ∧ e_source e = ws_id s ∧ e_target e = kw_id n.

(** What every reachable graph satisfies: keyword keys are unique, and a
    keyword node that names an owner is the test keyword. *)
Definition graphInv (g : GraphData) : Prop :=
  NoDup (kw_key <$> keywords g)
  ∧ Forall (λ k, kw_sourceWebsiteId k ≠ None → kw_text k = "Test Keyword")
           (keywords g).

(** The part of edge consistency that every reachable graph does satisfy:
    each edge leaves an existing website, and each mention edge arrives at
    an existing mention of that website. *)
Definition edgesInv (g : GraphData) : Prop :=
  Forall (λ e, ∃ s, s ∈ websites g ∧ ws_id s = e_source e)
         (websiteToKeywordEdges g ++ websiteToMentionEdges g)
  ∧ Forall (λ e, ∃ n, n ∈ mentions g ∧ mn_id n = e_target e
                      ∧ mn_sourceWebsiteId n = e_source e)
           (websiteToMentionEdges g).


(** [sub] occurs in [s]: some text, then [sub], then some text. *)
Definition occursIn (sub s : string) : Prop :=
  ∃ pre post, s = pre +:+ sub +:+ post.

(** The hash of lines 58-62 without the wrap to 32 bits: each round
    multiplies by 31 and adds the character code. *)
Fixpoint polynomial (seed : string) (acc : Z) : Z :=
  match seed with
  | EmptyString => acc
  | String c rest => polynomial rest (31 * acc + Z.of_N (N_of_ascii c))%Z
  end.

(** Every keyword edge arrives at an existing keyword node. *)
Definition keywordTargetsExist (g : GraphData) : Prop :=
  Forall (λ e, ∃ k, k ∈ keywords g ∧ kw_id k = e_target e)
         (websiteToKeywordEdges g).

(** ** Sample inputs

    An environment whose clock advances by one at each reading and whose
    random suffixes are all different, settings that let a merge through, and
    the world before the first page. *)
Definition sampleEnv : Env :=
  mkEnv (λ t, 1700000000000 + Z.of_nat t)%Z (λ t, "r" +:+ pretty t)
        (λ _ _, true).

Definition sampleSettings : Settings := mkSettings "frontend tooling" "key".

Definition initialWorld : World := mkWorld (mkStorage None None) 0.

Definition page (u t : string) (kws : list string) (ms : list Mention)
    : ExtractedPageData :=
  mkExtractedPageData u t "favicon.ico" kws ms None.

(** The world after a first page with the keyword "React" has been merged
    and its keyword node has been dragged to (10, 20). *)
Definition positionedWorld : World :=
  mkWorld
    (mkStorage
       (Some (GraphStore.updateKeywordPosition "keyword-1700000000003-r3"
                (mkPosition (Num 10) (Num 20))
                (graphAfter sampleEnv sampleSettings
                   (page "https://a.example" "A" ["React"] []) initialWorld)))
       None)
    6.

(** Three merges from the empty graph: a page of site A with no keyword, a
    page of site B with the keyword "Test Keyword", and a page of site A
    with the keyword "rocq". *)
Definition threeMerges : World :=
  processPageData sampleEnv sampleSettings
    (page "https://a.example" "A" ["rocq"] [])
    (processPageData sampleEnv sampleSettings
       (page "https://b.example" "B" ["Test Keyword"] [])
       (processPageData sampleEnv sampleSettings
          (page "https://a.example" "A" [] []) initialWorld)).

(** The world after a first page with the mention "React Hooks" has been
    merged and its mention node has been dragged to (3, 4). *)
Definition mentionedWorld : World :=
  mkWorld
    (mkStorage
       (Some (GraphStore.updateMentionPosition "mention-1700000000005-r5"
                (mkPosition (Num 3) (Num 4))
                (graphAfter sampleEnv sampleSettings
                   (page "https://a.example" "A" ["react"]
                      [mkMention "React Hooks" "React Hooks let you use state"])
                   initialWorld)))
       None)
    8.

(** The graph after one page of a component library has been merged. *)
Definition uiGraph : GraphData :=
  graphAfter sampleEnv sampleSettings
    (page "https://ui.example" "Component kit" ["shadcn"; "tailwind"]
       [mkMention "Radix" "built on Radix primitives"])
    initialWorld.

(** A stand-in for d3-force that leaves the nodes where they are. *)
Definition stillSimulation
    : list SimNode → list SimLink → list FlowNode → Dimensions → list SimNode :=
  λ simNodes _ _ _, simNodes.

Definition sampleDimensions : Dimensions := mkDimensions (Num 1024) (Num 768).

(** * Properties *)

(** ** Strings *)

Lemma length_toLowerCase s : String.length (toLowerCase s) = String.length s.
Proof. induction s as [|c s IH]; simpl; congruence. Qed.

(** ** Lists *)

Section list_facts.
Context {A B : Type} (f : A → B).

Lemma NoDup_fmap_filter (P : A → Prop) `{!∀ a, Decision (P a)} (l : list A) :
    NoDup (f <$> l) → NoDup (f <$> filter P l).
Proof.
    intros Hnd. eapply sublist_NoDup; [exact Hnd|].
    apply fmap_sublist, sublist_filter.
Qed.

Lemma NoDup_fmap_inj_on (l : list A) (a b : A) :
    NoDup (f <$> l) → a ∈ l → b ∈ l → f a = f b → a = b.
Proof.
    induction l as [|c l IH]; intros Hnd Ha Hb Hf; [by inversion Ha|].
    rewrite fmap_cons in Hnd. apply NoDup_cons in Hnd as [Hc Hnd].
    apply elem_of_cons in Ha as [->|Ha]; apply elem_of_cons in Hb as [->|Hb].
    - done.
    - exfalso. apply Hc. rewrite Hf. by apply list_elem_of_fmap_2.
    - exfalso. apply Hc. rewrite <- Hf. by apply list_elem_of_fmap_2.
    - by apply IH.
Qed.

Lemma filter_none (P : A → Prop) `{!∀ a, Decision (P a)} (l : list A) :
    Forall (λ a, ¬ P a) l → filter P l = [].
Proof.
    induction 1 as [|a l Ha _ IH]; [done|].
    by rewrite filter_cons_False.
Qed.

Lemma filter_key_singleton `{!EqDecision B} (l : list A) (a : A) :
    NoDup (f <$> l) → a ∈ l → filter (λ b, f b = f a) l = [a].
Proof.
    induction l as [|c l IH]; intros Hnd Ha; [by inversion Ha|].
    rewrite fmap_cons in Hnd. apply NoDup_cons in Hnd as [Hc Hnd].
    apply elem_of_cons in Ha as [->|Ha].
    - rewrite filter_cons_True by done. f_equal.
      apply filter_none, Forall_forall. intros b Hb Hfb.
      apply Hc. rewrite <- Hfb. by apply list_elem_of_fmap_2.
    - rewrite filter_cons_False; [by apply IH|].
      intros Hfc. apply Hc. rewrite Hfc. by apply list_elem_of_fmap_2.
Qed.

Lemma NoDup_fmap_snoc (l : list A) (a : A) :
    NoDup (f <$> l) → Forall (λ b, f b ≠ f a) l → NoDup (f <$> (l ++ [a])).
Proof.
    intros Hnd Hall. rewrite fmap_app. apply NoDup_app. split_and!; [done| |].
    - intros b Hb Hb'. apply list_elem_of_fmap in Hb as (c & -> & Hc).
      apply list_elem_of_singleton in Hb'.
      by eapply (proj1 (Forall_forall _ _) Hall c).
    - apply NoDup_singleton.
Qed.
End list_facts.

(** ** The website upsert *)

Lemma upsertWebsite_spec env data t ws W ws' t' :
  upsertWebsite env data t ws = (W, ws', t') →
  (∃ s, s ∈ ws' ∧ ws_id s = W ∧ ws_url s = url data
        ∧ ws_title s = title data)
  ∧ (∀ s, s ∈ ws → ∃ s', s' ∈ ws' ∧ ws_id s' = ws_id s ∧ ws_url s' = ws_url s
                        ∧ ws_lastPosition s' = ws_lastPosition s)
  ∧ ws' ≠ [].
Proof.
  unfold upsertWebsite. intros Hup.
  destruct (list_find _ ws) as [[i w]|] eqn:Hfind.
  - injection Hup as <- <- <-.
    apply list_find_Some in Hfind as (Hi & Hurl & _).
    assert (Hlt : i < length ws) by (by eapply lookup_lt_Some).
    split_and!.
    + eexists. split; [eapply list_elem_of_lookup_2, list_lookup_insert_eq, Hlt|].
      done.
    + intros s Hs. apply list_elem_of_lookup in Hs as [j Hj].
      destruct (decide (j = i)) as [->|Hne].
      * assert (s = w) as -> by congruence.
        eexists. split; [eapply list_elem_of_lookup_2, list_lookup_insert_eq, Hlt|].
        done.
      * exists s. split; [|done].
        eapply list_elem_of_lookup_2. by rewrite list_lookup_insert_ne.
    + intros Hnil. apply (f_equal length) in Hnil.
      rewrite length_insert in Hnil. simpl in Hnil. lia.
  - injection Hup as <- <- <-. split_and!.
    + eexists. split; [apply elem_of_app; right; apply list_elem_of_singleton; done|].
      done.
    + intros s Hs. exists s. split; [|done]. apply elem_of_app. by left.
    + by destruct ws.
Qed.

(** ** The keyword loop *)

Lemma keywordLoop_spec env W kp kws : ∀ ks es t,
  ∃ newKs newEs t',
    keywordLoop env W kp kws ks es t = (ks ++ newKs, es ++ newEs, t')
    ∧ Forall (λ k, kw_sourceWebsiteId k = None
                   ∧ kw_position k = lookupPosition kp (kw_key k)
                   ∧ 3 ≤ String.length (kw_text k)
                   ∧ kw_text k ∈ kws
                   ∧ ∃ t0, kw_id k = freshId env "keyword" t0) newKs
    ∧ Forall2 (λ e kw, e_source e = W
                       ∧ ∃ k, k ∈ ks ++ newKs ∧ kw_id k = e_target e
                              ∧ kw_key k = toLowerCase kw)
              newEs (filter (λ kw, 3 ≤ String.length kw) kws)
    ∧ (NoDup (kw_key <$> ks) → NoDup (kw_key <$> (ks ++ newKs))).
Proof.
  induction kws as [|kw kws IH]; intros ks es t; simpl.
  { exists [], [], t. rewrite !app_nil_r. split_and!; by try constructor. }
  destruct (Nat.ltb_spec (String.length kw) 3) as [Hshort|Hlong].
  - destruct (IH ks es t) as (newKs & newEs & t' & -> & Hks & Hes & Hnd).
    exists newKs, newEs, t'. split_and!; [done| |by rewrite filter_cons_False by lia|done].
    eapply Forall_impl; [exact Hks|]. intros k (?&?&?&?&?).
    split_and!; try done. by apply elem_of_cons; right.
  - rewrite filter_cons_True by lia.
    destruct (list_find _ ks) as [[i k0]|] eqn:Hfind.
    + destruct (IH ks (es ++ [mkEdge (freshId env "edge" t) W (kw_id k0)]) (S t))
        as (newKs & newEs & t' & -> & Hks & Hes & Hnd).
      apply list_find_Some in Hfind as (Hi & Hkey & _).
      exists newKs, (mkEdge (freshId env "edge" t) W (kw_id k0) :: newEs), t'.
      split_and!; [by rewrite <- app_assoc| | |done].
      * eapply Forall_impl; [exact Hks|]. intros k (?&?&?&?&?).
        split_and!; try done. by apply elem_of_cons; right.
      * constructor; [|done]. split; [done|]. exists k0. split_and!; try done.
        apply elem_of_app; left. by eapply list_elem_of_lookup_2.
    + set (new := mkKeywordNode (freshId env "keyword" t) kw None
                    (lookupPosition kp (toLowerCase kw))).
      destruct (IH (ks ++ [new])
                  (es ++ [mkEdge (freshId env "edge" (S t)) W
                            (freshId env "keyword" t)]) (S (S t)))
        as (newKs & newEs & t' & -> & Hks & Hes & Hnd).
      apply list_find_None in Hfind.
      exists (new :: newKs),
        (mkEdge (freshId env "edge" (S t)) W (freshId env "keyword" t) :: newEs),
        t'.
      split_and!.
      * by rewrite <- !app_assoc.
      * constructor.
        -- split_and!; try done; [by apply elem_of_cons; left|by eexists].
        -- eapply Forall_impl; [exact Hks|]. intros k (?&?&?&?&?).
           split_and!; try done. by apply elem_of_cons; right.
      * constructor.
        -- split; [done|]. exists new. split_and!; try done.
           apply elem_of_app; right. by apply elem_of_cons; left.
        -- eapply Forall2_impl; [exact Hes|]. intros e kw' (? & k & Hk & ? & ?).
           split; [done|]. exists k. split_and!; try done.
           by rewrite <- app_assoc in Hk.
      * intros Hnd0. rewrite (app_assoc ks [new] newKs : ks ++ new :: newKs = _).
        apply Hnd. apply NoDup_fmap_snoc; [done|].
        eapply Forall_impl; [exact Hfind|]. done.
Qed.

(** ** The mention loop *)

Lemma length_zero_empty (s : string) : String.length s = 0 ↔ s = "".
Proof. by destruct s. Qed.

Lemma mentionLoop_spec env W existing mds : ∀ ms es t,
  ∃ newMs newEs t',
    mentionLoop env W existing mds ms es t = (ms ++ newMs, es ++ newEs, t')
    ∧ Forall2 (λ n md, mn_text n = m_text md
                       ∧ mn_context n = m_context md
                       ∧ mn_sourceWebsiteId n = W
                       ∧ mn_position n
                         = (list_find (λ m, toLowerCase (mn_text m)
                                            = toLowerCase (m_text md)) existing
                            ≫= λ im, mn_position im.2)
                       ∧ ∃ t0, mn_id n = freshId env "mention" t0)
              newMs
              (filter (λ m, 2 ≤ String.length (m_text m) ∧ m_context m ≠ "") mds)
    ∧ Forall2 (λ e n, e_source e = W ∧ e_target e = mn_id n) newEs newMs.
Proof.
  induction mds as [|md mds IH]; intros ms es t; simpl.
  { exists [], [], t. rewrite !app_nil_r. split_and!; by try constructor. }
  destruct (Nat.ltb_spec (String.length (m_text md)) 2) as [Hshort|Hlong]; simpl.
  { destruct (IH ms es t) as (newMs & newEs & t' & -> & Hms & Hes).
    exists newMs, newEs, t'. split_and!; try done.
    rewrite filter_cons_False; [done|]. intros [? _]. lia. }
  destruct (Nat.eqb_spec (String.length (m_context md)) 0) as [Hempty|Hctx].
  { destruct (IH ms es t) as (newMs & newEs & t' & -> & Hms & Hes).
    exists newMs, newEs, t'. split_and!; try done.
    rewrite filter_cons_False; [done|]. intros [_ Hne].
    by apply Hne, length_zero_empty. }
  rewrite filter_cons_True
    by (split; [lia|by intros ?%length_zero_empty]).
  match goal with
  | |- context [mentionLoop _ _ _ _ (ms ++ [?n]) (es ++ [?e]) _] =>
      destruct (IH (ms ++ [n]) (es ++ [e]) (S (S t)))
        as (newMs & newEs & t' & -> & Hms & Hes);
      exists (n :: newMs), (e :: newEs), t'
  end.
  split_and!.
  - by rewrite <- !app_assoc.
  - constructor; [|done]. split_and!; try done. by eexists.
  - by constructor.
Qed.

(** ** The test keyword *)

Lemma ensureTestKeyword_cases env g t :
  (ensureTestKeyword env g t).1 = g
  ∨ ∃ w0 rest,
      websites g = w0 :: rest ∧ keywords g = []
      ∧ websiteToKeywordEdges g = []
      ∧ (ensureTestKeyword env g t).1
        = mkGraphData (websites g)
            [mkKeywordNode ("keyword-test-" +:+ pretty (Date_now env t))
               "Test Keyword" (Some (ws_id w0)) None]
            (mentions g)
            [mkEdge ("edge-test-" +:+ pretty (Date_now env (S t))) (ws_id w0)
               ("keyword-test-" +:+ pretty (Date_now env t))]
            (websiteToMentionEdges g).
Proof.
  unfold ensureTestKeyword.
  destruct (websites g) as [|w0 rest] eqn:Hws; [by left|].
  destruct (websiteToKeywordEdges g) eqn:Hes; [|by left].
  destruct (keywords g) eqn:Hks; [|by left].
  right. by exists w0, rest.
Qed.

Lemma ensureTestKeyword_id env g t :
  keywords g ≠ [] → (ensureTestKeyword env g t).1 = g.
Proof.
  intros Hne. destruct (ensureTestKeyword_cases env g t)
    as [?|(? & ? & _ & Hnil & _)]; [done|]. by rewrite Hnil in Hne.
Qed.

(** ** The merge as a whole *)

Lemma mergePage_spec env data g t :
  ∃ W ws t1 newKs newKEs newMs newMEs t2,
    let kp := savePositions
                (filter (λ k, kw_sourceWebsiteId k = Some W) (keywords g)) in
    let ks0 := filter (λ k, kw_sourceWebsiteId k ≠ Some W) (keywords g) in
    let existing := filter (λ m, mn_sourceWebsiteId m = W) (mentions g) in
    upsertWebsite env data t (websites g) = (W, ws, t1)
    ∧ mergePage env data g t
      = ensureTestKeyword env
          (mkGraphData ws (ks0 ++ newKs)
             (filter (λ m, mn_sourceWebsiteId m ≠ W) (mentions g) ++ newMs)
             (filter (λ e, e_source e ≠ W) (websiteToKeywordEdges g) ++ newKEs)
             (filter (λ e, e_source e ≠ W) (websiteToMentionEdges g) ++ newMEs))
          t2
    ∧ Forall (λ k, kw_sourceWebsiteId k = None
                   ∧ kw_position k = lookupPosition kp (kw_key k)
                   ∧ 3 ≤ String.length (kw_text k)
                   ∧ kw_text k ∈ d_keywords data
                   ∧ ∃ t0, kw_id k = freshId env "keyword" t0) newKs
    ∧ Forall2 (λ e kw, e_source e = W
                       ∧ ∃ k, k ∈ ks0 ++ newKs ∧ kw_id k = e_target e
                              ∧ kw_key k = toLowerCase kw)
              newKEs (validKeywords data)
    ∧ (NoDup (kw_key <$> ks0) → NoDup (kw_key <$> (ks0 ++ newKs)))
    ∧ Forall2 (λ n md, mn_text n = m_text md
                       ∧ mn_context n = m_context md
                       ∧ mn_sourceWebsiteId n = W
                       ∧ mn_position n
                         = (list_find (λ m, toLowerCase (mn_text m)
                                            = toLowerCase (m_text md)) existing
                            ≫= λ im, mn_position im.2)
                       ∧ ∃ t0, mn_id n = freshId env "mention" t0)
              newMs (validMentions data)
    ∧ Forall2 (λ e n, e_source e = W ∧ e_target e = mn_id n) newMEs newMs.
Proof.
  unfold mergePage.
  destruct (upsertWebsite env data t (websites g)) as [[W ws] t1] eqn:Hup.
  destruct (keywordLoop_spec env W
              (savePositions
                 (filter (λ k, kw_sourceWebsiteId k = Some W) (keywords g)))
              (d_keywords data)
              (filter (λ k, kw_sourceWebsiteId k ≠ Some W) (keywords g))
              (filter (λ e, e_source e ≠ W) (websiteToKeywordEdges g)) t1)
    as (newKs & newKEs & t' & -> & Hks & Hes & Hnd).
  destruct (mentionLoop_spec env W
              (filter (λ m, mn_sourceWebsiteId m = W) (mentions g))
              (d_mentions data)
              (filter (λ m, mn_sourceWebsiteId m ≠ W) (mentions g))
              (filter (λ e, e_source e ≠ W) (websiteToMentionEdges g)) t')
    as (newMs & newMEs & t2 & -> & Hms & Hmes).
  exists W, ws, t1, newKs, newKEs, newMs, newMEs, t2. by split_and!.
Qed.

Lemma graphAfter_accepted env cfg data w :
  accepted env cfg data (tick w) = true →
  graphAfter env cfg data w
  = (mergePage env data (currentGraph (storage w)) (S (tick w))).1.
Proof.
  unfold graphAfter, processPageData. intros ->.
  by destruct (mergePage _ _ _ _) as [g t].
Qed.

Lemma graphAfter_skipped env cfg data w :
  accepted env cfg data (tick w) = false →
  graphAfter env cfg data w = currentGraph (storage w).
Proof. unfold graphAfter, processPageData. by intros ->. Qed.

(** ** The invariant of reachable graphs *)

Lemma mergePage_inv env data g t :
  graphInv g → graphInv (mergePage env data g t).1.
Proof.
  intros [Hnd Hown].
  destruct (mergePage_spec env data g t)
    as (W & ws & t1 & newKs & newKEs & newMs & newMEs & t2
        & _ & -> & Hks & _ & Hnd' & _).
  destruct (ensureTestKeyword_cases env
    (mkGraphData ws
       (filter (λ k, kw_sourceWebsiteId k ≠ Some W) (keywords g) ++ newKs)
       (filter (λ m, mn_sourceWebsiteId m ≠ W) (mentions g) ++ newMs)
       (filter (λ e, e_source e ≠ W) (websiteToKeywordEdges g) ++ newKEs)
       (filter (λ e, e_source e ≠ W) (websiteToMentionEdges g) ++ newMEs)) t2)
    as [->|(w0 & rest & _ & _ & _ & ->)]; split; simpl.
  - by apply Hnd', NoDup_fmap_filter.
  - apply Forall_app. split.
    + apply Forall_forall. intros k [_ Hk]%list_elem_of_filter.
      by apply (proj1 (Forall_forall _ _) Hown).
    + eapply Forall_impl; [exact Hks|]. intros k (Hnone & _) Hsome. done.
  - apply NoDup_singleton.
  - by repeat constructor.
Qed.

Lemma updateKeywordPosition_inv id position g :
  graphInv g → graphInv (GraphStore.updateKeywordPosition id position g).
Proof.
  intros [Hnd Hown]. split; simpl.
  - rewrite <- list_fmap_compose.
    erewrite list_fmap_ext; [exact Hnd|]. intros i k _. simpl.
    by destruct (decide _).
  - apply Forall_fmap. eapply Forall_impl; [exact Hown|]. intros k Hk. simpl.
    by destruct (decide _).
Qed.

Lemma reachable_inv g : reachable g → graphInv g.
Proof.
  induction 1 as [|env cfg data w _ IH| | |]; try done.
  - split; simpl; constructor.
  - fold (graphAfter env cfg data w).
    destruct (accepted env cfg data (tick w)) eqn:Hacc.
    + rewrite graphAfter_accepted by done. by apply mergePage_inv.
    + by rewrite graphAfter_skipped.
  - by apply updateKeywordPosition_inv.
Qed.

Lemma Forall2_elem_of_r {A B} (R : A → B → Prop) (l : list A) (k : list B) y :
  Forall2 R l k → y ∈ k → ∃ x, x ∈ l ∧ R x y.
Proof.
  induction 1 as [|a b l k Hab _ IH]; intros Hy; [by inversion Hy|].
  apply elem_of_cons in Hy as [->|Hy].
  - exists a. split; [by apply elem_of_cons; left|done].
  - destruct (IH Hy) as (c & ? & ?). exists c.
    split; [by apply elem_of_cons; right|done].
Qed.

(** A page with a keyword of three characters or more: the test keyword is
    not inserted, and the keyword has its node and its edge. *)
Lemma mergePage_valid env data g t kw :
  kw ∈ d_keywords data → 3 ≤ String.length kw →
  ∃ W ws t1 newKs newKEs ms mes,
    let ks0 := filter (λ k, kw_sourceWebsiteId k ≠ Some W) (keywords g) in
    let kes0 := filter (λ e, e_source e ≠ W) (websiteToKeywordEdges g) in
    upsertWebsite env data t (websites g) = (W, ws, t1)
    ∧ (mergePage env data g t).1
      = mkGraphData ws (ks0 ++ newKs) ms (kes0 ++ newKEs) mes
    ∧ Forall (λ k, kw_sourceWebsiteId k = None
                   ∧ kw_position k
                     = lookupPosition
                         (savePositions
                            (filter (λ k, kw_sourceWebsiteId k = Some W)
                                    (keywords g)))
                         (kw_key k)) newKs
    ∧ Forall (λ e, e_source e = W) newKEs
    ∧ ∃ e n, e ∈ newKEs ∧ n ∈ ks0 ++ newKs
             ∧ kw_id n = e_target e ∧ kw_key n = toLowerCase kw.
Proof.
  intros Hkw Hlen.
  destruct (mergePage_spec env data g t)
    as (W & ws & t1 & newKs & newKEs & newMs & newMEs & t2
        & Hup & Hmerge & Hks & Hes & _).
  assert (Hvalid : kw ∈ validKeywords data) by (by apply list_elem_of_filter).
  destruct (Forall2_elem_of_r _ _ _ _ Hes Hvalid) as (e & He & _ & n & Hn & Hid & Hkey).
  eexists W, ws, t1, newKs, newKEs, _, _. split_and!.
  - done.
  - rewrite Hmerge. apply ensureTestKeyword_id. simpl.
    intros Hnil. rewrite Hnil in Hn. by inversion Hn.
  - eapply Forall_impl; [exact Hks|]. by intros k (? & ? & _).
  - apply Forall_forall. intros e' He'.
    apply list_elem_of_lookup in He' as [i Hi].
    destruct (Forall2_lookup_l _ _ _ _ _ Hes Hi) as (? & _ & ? & _). done.
  - by exists e, n.
Qed.

(** ** C1: global keyword uniqueness *)

(** C1, as amended.  After any sequence of merges and position updates from
    the empty graph, no two keyword nodes have the same lowercase text.  And
    when two consecutive merges each carry a keyword of at least three
    characters, equal in lowercase and other than the text of the test
    keyword, the graph then has exactly one keyword node with that lowercase
    text, and it is the target of an edge from the website of either page. *)
Theorem keyword_uniqueness :
  (∀ g, reachable g → NoDup (kw_key <$> keywords g))
  ∧ ∀ env1 cfg1 d1 env2 cfg2 d2 w k1 k2,
      reachable (currentGraph (storage w)) →
      accepted env1 cfg1 d1 (tick w) = true →
      accepted env2 cfg2 d2 (tick (processPageData env1 cfg1 d1 w)) = true →
      k1 ∈ d_keywords d1 → k2 ∈ d_keywords d2 →
      toLowerCase k1 = toLowerCase k2 →
      3 ≤ String.length k1 →
      toLowerCase k1 ≠ "test keyword" →
      let g2 := graphAfter env2 cfg2 d2 (processPageData env1 cfg1 d1 w) in
      ∃ n, filter (λ k, kw_key k = toLowerCase k1) (keywords g2) = [n]
           ∧ linked g2 (url d1) n ∧ linked g2 (url d2) n.
Proof.
  split; [by intros g [? _]%reachable_inv|].
  intros env1 cfg1 d1 env2 cfg2 d2 w k1 k2 Hreach Hacc1 Hacc2 Hk1 Hk2 Heq Hlen
    Htest g2.
  assert (Hlen2 : 3 ≤ String.length k2).
  { by rewrite <- (length_toLowerCase k2), <- Heq, length_toLowerCase. }
  set (w1 := processPageData env1 cfg1 d1 w) in *.
  assert (Hreach1 : reachable (currentGraph (storage w1))) by by constructor.
  assert (Hreach2 : reachable g2) by by constructor.
  assert (Hg1 : currentGraph (storage w1)
                = (mergePage env1 d1 (currentGraph (storage w)) (S (tick w))).1)
    by by apply graphAfter_accepted.
  assert (Hg2 : g2 = (mergePage env2 d2 (currentGraph (storage w1))
                        (S (tick w1))).1)
    by by apply graphAfter_accepted.
  destruct (mergePage_valid env1 d1 (currentGraph (storage w)) (S (tick w)) k1
              Hk1 Hlen)
    as (W1 & ws1 & t1 & newKs1 & newKEs1 & ms1 & mes1
        & Hup1 & Hm1 & _ & Hsrc1 & e1 & n1 & He1 & Hn1 & Hid1 & Hkey1).
  destruct (mergePage_valid env2 d2 (currentGraph (storage w1)) (S (tick w1)) k2
              Hk2 Hlen2)
    as (W2 & ws2 & t2 & newKs2 & newKEs2 & ms2 & mes2
        & Hup2 & Hm2 & _ & Hsrc2 & e2 & n2 & He2 & Hn2 & Hid2 & Hkey2).
  rewrite <- Hg1 in Hm1. rewrite <- Hg2 in Hm2.
  destruct (upsertWebsite_spec _ _ _ _ _ _ _ Hup1) as ((s1 & Hs1 & Hs1id & Hs1url & _) & _ & _).
  destruct (upsertWebsite_spec _ _ _ _ _ _ _ Hup2)
    as ((s2 & Hs2 & Hs2id & Hs2url & _) & Hkeep & _).
  (* the node of the first merge names no owner *)
  assert (Hn1g : n1 ∈ keywords (currentGraph (storage w1))) by by rewrite Hm1.
  assert (Hfree : kw_sourceWebsiteId n1 = None).
  { destruct (reachable_inv _ Hreach1) as [_ Hown].
    destruct (kw_sourceWebsiteId n1) eqn:Hsrc; [|done].
    exfalso. apply Htest. rewrite <- Hkey1. unfold kw_key.
    rewrite (proj1 (Forall_forall _ _) Hown n1 Hn1g); [done|].
    by rewrite Hsrc. }
  (* so it is still there after the second merge, and it is the node found *)
  assert (Hn1g2 : n1 ∈ keywords g2).
  { rewrite Hm2. simpl. apply elem_of_app; left.
    apply list_elem_of_filter. split; [by rewrite Hfree|done]. }
  assert (Hn2g2 : n2 ∈ keywords g2) by by rewrite Hm2.
  destruct (reachable_inv _ Hreach2) as [Hnd2 _].
  assert (n2 = n1) as ->.
  { eapply (NoDup_fmap_inj_on kw_key); [exact Hnd2|done..|congruence]. }
  exists n1. split_and!.
  - rewrite <- Hkey1. by apply filter_key_singleton.
  - assert (Hs1' : s1 ∈ websites (currentGraph (storage w1))) by by rewrite Hm1.
    destruct (Hkeep s1 Hs1') as (s1' & Hs1'in & Hs1'id & Hs1'url & _).
    destruct (decide (W1 = W2)) as [HW|HW].
    + exists s1', e2. rewrite Hm2. simpl. split_and!; try done.
      * congruence.
      * apply elem_of_app; by right.
      * rewrite (proj1 (Forall_forall _ _) Hsrc2 e2 He2). congruence.
    + exists s1', e1. rewrite Hm2. simpl. split_and!; try done.
      * congruence.
      * apply elem_of_app; left. apply list_elem_of_filter.
        rewrite (proj1 (Forall_forall _ _) Hsrc1 e1 He1). split; [done|].
        rewrite Hm1. simpl. apply elem_of_app; by right.
      * rewrite (proj1 (Forall_forall _ _) Hsrc1 e1 He1). congruence.
  - exists s2, e2. rewrite Hm2. simpl. split_and!; try done.
    + apply elem_of_app; by right.
    + rewrite (proj1 (Forall_forall _ _) Hsrc2 e2 He2). congruence.
Qed.

Lemma keyword_uniqueness_witness :
  let g2 := graphAfter sampleEnv sampleSettings
              (page "https://b.example" "B" ["react"; "hooks"] [])
              (processPageData sampleEnv sampleSettings
                 (page "https://a.example" "A" ["React"] []) initialWorld) in
  ∃ n, filter (λ k, kw_key k = toLowerCase "React") (keywords g2) = [n]
       ∧ linked g2 "https://a.example" n ∧ linked g2 "https://b.example" n.
Proof.
  apply (proj2 keyword_uniqueness sampleEnv sampleSettings
           (page "https://a.example" "A" ["React"] [])
           sampleEnv sampleSettings
           (page "https://b.example" "B" ["react"; "hooks"] [])
           initialWorld "React" "react").
  - apply reachable_empty.
  - reflexivity.
  - reflexivity.
  - apply list_elem_of_In. simpl. auto.
  - apply list_elem_of_In. simpl. auto.
  - reflexivity.
  - simpl. lia.
  - discriminate.
Defined.

(** C1 as stated fails for keywords the loop skips: two pages that both
    carry the two-letter keyword "ai", in different case, leave no keyword
    node with that text. *)
Lemma keyword_uniqueness_counterexample :
  let d1 := page "https://a.example" "A" ["ai"] [] in
  let d2 := page "https://b.example" "B" ["AI"] [] in
  let g2 := graphAfter sampleEnv sampleSettings d2
              (processPageData sampleEnv sampleSettings d1 initialWorld) in
  "ai" ∈ d_keywords d1 ∧ "AI" ∈ d_keywords d2
  ∧ toLowerCase "ai" = toLowerCase "AI"
  ∧ ¬ ∃ n, filter (λ k, kw_key k = toLowerCase "ai") (keywords g2) = [n].
Proof.
  split_and!.
  - apply list_elem_of_In. simpl. auto.
  - apply list_elem_of_In. simpl. auto.
  - reflexivity.
  - intros [n Hn]. vm_compute in Hn. discriminate.
Qed.

(** ** C2: edge replacement *)

Section filter_facts.
Context {A : Type} (P : A → Prop) `{!∀ a, Decision (P a)}.

Lemma filter_all (l : list A) : Forall P l → filter P l = l.
Proof.
  induction 1 as [|a l Ha _ IH]; [done|].
  by rewrite filter_cons_True, IH.
Qed.

Lemma filter_filter_not (l : list A) : filter P (filter (λ a, ¬ P a) l) = [].
Proof.
  apply filter_none, Forall_forall. by intros a [? _]%list_elem_of_filter.
Qed.

Lemma filter_kept_and_new (l new : list A) :
  Forall P new → filter P (filter (λ a, ¬ P a) l ++ new) = new.
Proof.
  intros Hnew. by rewrite filter_app, filter_filter_not, filter_all.
Qed.
End filter_facts.

Lemma Forall2_chain {A B C} (R : A → B → Prop) (S : B → C → Prop)
    (l : list A) (m : list B) (k : list C) :
  Forall2 R l m → Forall2 S m k →
  Forall2 (λ a c, ∃ b, b ∈ m ∧ R a b ∧ S b c) l k.
Proof.
  intros HR. revert k. induction HR as [|a b l m Hab _ IH]; intros k HS.
  - inversion HS. constructor.
  - inversion HS as [|? c ? k' Hbc HS']; subst. constructor.
    + exists b. split; [by apply elem_of_cons; left|done].
    + eapply Forall2_impl; [by apply IH|].
      intros a' c' (b' & ? & ? & ?). exists b'.
      split; [by apply elem_of_cons; right|done].
Qed.

(** C2, as amended.  After an accepted merge of a page, the website of its
    url has exactly one outgoing mention edge per mention of the page that is
    not skipped, in order, each to the node made for it.  Its outgoing
    keyword edges are exactly one per keyword that is not skipped, in order,
    each to the node of that keyword, unless the page has no such keyword and
    the merge inserted the test keyword: then the one outgoing edge is the
    edge to it.  In particular a page with the single keyword [c] leaves one
    outgoing keyword edge, to the node of [c], whatever the website was
    linked to before. *)
Theorem edge_replacement env cfg data w :
  accepted env cfg data (tick w) = true →
  let g' := graphAfter env cfg data w in
  ∃ W,
    (∃ s, s ∈ websites g' ∧ ws_url s = url data ∧ ws_id s = W)
    ∧ (Forall2 (targetsKeyword g') (outgoing W (websiteToKeywordEdges g'))
               (validKeywords data)
       ∨ validKeywords data = []
         ∧ ∃ e k, outgoing W (websiteToKeywordEdges g') = [e]
                  ∧ keywords g' = [k] ∧ kw_text k = "Test Keyword"
                  ∧ e_target e = kw_id k)
    ∧ Forall2 (targetsMention g' W) (outgoing W (websiteToMentionEdges g'))
              (validMentions data)
    ∧ ∀ c, d_keywords data = [c] → 3 ≤ String.length c →
           ∃ e, outgoing W (websiteToKeywordEdges g') = [e]
                ∧ targetsKeyword g' e c.
Proof.
  intros Hacc g'. unfold g'. rewrite graphAfter_accepted by done. clear g'.
  destruct (mergePage_spec env data (currentGraph (storage w)) (S (tick w)))
    as (W & ws & t1 & newKs & newKEs & newMs & newMEs & t2
        & Hup & -> & Hks & Hes & _ & Hms & Hmes).
  set (g := currentGraph (storage w)) in *.
  destruct (upsertWebsite_spec _ _ _ _ _ _ _ Hup) as ((s & Hs & Hsid & Hsurl & _) & _ & _).
  assert (HsrcK : Forall (λ e, e_source e = W) newKEs).
  { apply Forall_forall. intros e [i Hi]%list_elem_of_lookup.
    by destruct (Forall2_lookup_l _ _ _ _ _ Hes Hi) as (? & _ & ? & _). }
  assert (HsrcM : Forall (λ e, e_source e = W) newMEs).
  { apply Forall_forall. intros e [i Hi]%list_elem_of_lookup.
    by destruct (Forall2_lookup_l _ _ _ _ _ Hmes Hi) as (? & _ & ? & _). }
  assert (HoutM : outgoing W
            (filter (λ e, e_source e ≠ W) (websiteToMentionEdges g) ++ newMEs)
            = newMEs) by by apply filter_kept_and_new.
  assert (HoutK : outgoing W
            (filter (λ e, e_source e ≠ W) (websiteToKeywordEdges g) ++ newKEs)
            = newKEs) by by apply filter_kept_and_new.
  assert (HM : ∀ ks kes,
    Forall2 (targetsMention
               (mkGraphData ws ks
                  (filter (λ m, mn_sourceWebsiteId m ≠ W) (mentions g) ++ newMs)
                  kes
                  (filter (λ e, e_source e ≠ W) (websiteToMentionEdges g)
                   ++ newMEs)) W)
            newMEs (validMentions data)).
  { intros ks kes. eapply Forall2_impl; [exact (Forall2_chain _ _ _ _ _ Hmes Hms)|].
    intros e m (n & Hn & [_ Htgt] & Htext & Hctx & Hown & _).
    exists n. split_and!; try done. simpl. apply elem_of_app; by right. }
  exists W.
  destruct (ensureTestKeyword_cases env
    (mkGraphData ws
       (filter (λ k, kw_sourceWebsiteId k ≠ Some W) (keywords g) ++ newKs)
       (filter (λ m, mn_sourceWebsiteId m ≠ W) (mentions g) ++ newMs)
       (filter (λ e, e_source e ≠ W) (websiteToKeywordEdges g) ++ newKEs)
       (filter (λ e, e_source e ≠ W) (websiteToMentionEdges g) ++ newMEs)) t2)
    as [->|(w0 & rest & Hws & Hnoks & Hnoes & ->)]; simpl in *.
  - assert (HK : Forall2
      (targetsKeyword
         (mkGraphData ws
            (filter (λ k, kw_sourceWebsiteId k ≠ Some W) (keywords g) ++ newKs)
            (filter (λ m, mn_sourceWebsiteId m ≠ W) (mentions g) ++ newMs)
            (filter (λ e, e_source e ≠ W) (websiteToKeywordEdges g) ++ newKEs)
            (filter (λ e, e_source e ≠ W) (websiteToMentionEdges g) ++ newMEs)))
      newKEs (validKeywords data)).
    { eapply Forall2_impl; [exact Hes|]. by intros e kw (_ & k & ? & ? & ?); exists k. }
    split_and!.
    + by exists s.
    + left. by rewrite HoutK.
    + rewrite HoutM. apply HM.
    + intros c Hc Hlen. rewrite HoutK.
      unfold validKeywords in HK. rewrite Hc, filter_cons_True in HK by done.
      apply Forall2_cons_inv_r in HK as (e & rest & He & Hrest & ->).
      apply Forall2_nil_inv_r in Hrest as ->. by exists e.
  - apply app_eq_nil in Hnoes as [_ ->]. apply app_eq_nil in Hnoks as [Hks0 ->].
    apply Forall2_nil_inv_l in Hes as Hvalid. split_and!.
    + by exists s.
    + unfold outgoing. destruct (decide (ws_id w0 = W)) as [Hw0|Hw0].
      * right. split; [done|]. rewrite filter_cons_True by done.
        by eexists _, _.
      * left. rewrite filter_cons_False, Hvalid by done. constructor.
    + rewrite HoutM. apply HM.
    + intros c Hc Hlen. exfalso. unfold validKeywords in Hvalid.
      by rewrite Hc, filter_cons_True in Hvalid.
Qed.

Lemma edge_replacement_witness :
  let w1 := processPageData sampleEnv sampleSettings
              (page "https://a.example" "A" ["alpha"; "beta"] []) initialWorld in
  let data := page "https://a.example" "A" ["gamma"] [] in
  let g' := graphAfter sampleEnv sampleSettings data w1 in
  ∃ W,
    (∃ s, s ∈ websites g' ∧ ws_url s = url data ∧ ws_id s = W)
    ∧ ∃ e, outgoing W (websiteToKeywordEdges g') = [e]
           ∧ targetsKeyword g' e "gamma".
Proof.
  intros w1 data g'.
  destruct (edge_replacement sampleEnv sampleSettings data w1 eq_refl)
    as (W & Hsite & _ & _ & Hone).
  exists W. split; [exact Hsite|].
  apply (Hone "gamma"); [reflexivity|simpl; lia].
Defined.

(** C2 as stated fails when the test keyword is inserted: a first page with
    no keyword and no mention at all leaves its website with an outgoing
    keyword edge. *)
Lemma edge_replacement_counterexample :
  let data := page "https://a.example" "A" [] [] in
  let g' := graphAfter sampleEnv sampleSettings data initialWorld in
  d_keywords data = [] ∧ d_mentions data = []
  ∧ ∃ s, websites g' = [s] ∧ ws_url s = url data
         ∧ outgoing (ws_id s) (websiteToKeywordEdges g') ≠ []
         ∧ ¬ Forall2 (targetsKeyword g')
               (outgoing (ws_id s) (websiteToKeywordEdges g'))
               (validKeywords data).
Proof.
  intros data g'. split_and!; [done..|].
  assert (Hg : g' = mkGraphData
    [mkWebsiteNode "website-1700000000001-r1" "https://a.example" "A"
       (Some "favicon.ico") 1700000000002 None]
    [mkKeywordNode "keyword-test-1700000000003" "Test Keyword"
       (Some "website-1700000000001-r1") None]
    []
    [mkEdge "edge-test-1700000000004" "website-1700000000001-r1"
       "keyword-test-1700000000003"]
    []) by (vm_compute; reflexivity).
  rewrite Hg. simpl. eexists. split_and!; [done..| |].
  - simpl. unfold outgoing. by rewrite filter_cons_True.
  - simpl. unfold outgoing. rewrite filter_cons_True by done.
    intros H. inversion H.
Qed.

(** ** C3: position preservation *)

Lemma savePositions_fold_other (l : list KeywordNode) key :
  ∀ m : gmap string (option Position),
    key ∉ kw_key <$> l →
    foldl (λ m k, <[toLowerCase (kw_text k) := kw_position k]> m) m l !! key
    = m !! key.
Proof.
  induction l as [|c l IH]; intros m Hnot; [done|]. simpl.
  rewrite fmap_cons in Hnot. apply not_elem_of_cons in Hnot as [Hc Hl].
  rewrite IH by done. by apply lookup_insert_ne.
Qed.

Lemma savePositions_lookup (l : list KeywordNode) k :
  NoDup (kw_key <$> l) → k ∈ l →
  lookupPosition (savePositions l) (kw_key k) = kw_position k.
Proof.
  unfold lookupPosition, savePositions.
  generalize (∅ : gmap string (option Position)).
  induction l as [|c l IH]; intros m Hnd Hk; [by inversion Hk|].
  rewrite fmap_cons in Hnd. apply NoDup_cons in Hnd as [Hc Hnd]. simpl.
  apply elem_of_cons in Hk as [->|Hk].
  - rewrite savePositions_fold_other by done.
    unfold kw_key. by rewrite lookup_insert_eq.
  - by apply IH.
Qed.

Lemma mergePage_websites env data g t s :
  s ∈ websites g →
  ∃ s', s' ∈ websites (mergePage env data g t).1 ∧ ws_id s' = ws_id s
        ∧ ws_url s' = ws_url s ∧ ws_lastPosition s' = ws_lastPosition s.
Proof.
  intros Hs.
  destruct (mergePage_spec env data g t)
    as (W & ws & t1 & newKs & newKEs & newMs & newMEs & t2 & Hup & -> & _).
  destruct (upsertWebsite_spec _ _ _ _ _ _ _ Hup) as (_ & Hkeep & _).
  destruct (Hkeep s Hs) as (s' & ? & ? & ? & ?). exists s'.
  split_and!; try done.
  by destruct (ensureTestKeyword_cases env
    (mkGraphData ws
       (filter (λ k, kw_sourceWebsiteId k ≠ Some W) (keywords g) ++ newKs)
       (filter (λ m, mn_sourceWebsiteId m ≠ W) (mentions g) ++ newMs)
       (filter (λ e, e_source e ≠ W) (websiteToKeywordEdges g) ++ newKEs)
       (filter (λ e, e_source e ≠ W) (websiteToMentionEdges g) ++ newMEs)) t2)
    as [->|(? & ? & _ & _ & _ & ->)].
Qed.

Lemma mergePage_keyword_position env data g t k kw :
  graphInv g → k ∈ keywords g → kw ∈ d_keywords data →
  toLowerCase kw = kw_key k →
  ∃ k', k' ∈ keywords (mergePage env data g t).1
        ∧ kw_key k' = kw_key k ∧ kw_position k' = kw_position k
        ∧ (kw_sourceWebsiteId k = None → k' = k).
Proof.
  intros [Hnd Hown] Hk Hkw Hkey.
  destruct (mergePage_spec env data g t)
    as (W & ws & t1 & newKs & newKEs & newMs & newMEs & t2
        & Hup & Hmerge & Hks & Hes & _).
  destruct (decide (kw_sourceWebsiteId k = Some W)) as [Hmine|Hother].
  - (* the node is owned by this website: it is the test keyword *)
    assert (Htext : kw_text k = "Test Keyword").
    { apply (proj1 (Forall_forall _ _) Hown k Hk). by rewrite Hmine. }
    assert (Hlen : 3 ≤ String.length kw).
    { rewrite <- length_toLowerCase, Hkey. unfold kw_key.
      rewrite Htext. simpl. lia. }
    destruct (mergePage_valid env data g t kw Hkw Hlen)
      as (W' & ws' & t1' & newKs' & newKEs' & ms & mes
          & Hup' & -> & Hks' & _ & e & n & _ & Hn & _ & Hnkey).
    assert (W' = W) as -> by congruence. simpl.
    apply elem_of_app in Hn as [Hn|Hn].
    + exfalso. apply list_elem_of_filter in Hn as [Hnot Hn].
      assert (n = k) as ->
        by (eapply (NoDup_fmap_inj_on kw_key); [exact Hnd|done..|congruence]).
      done.
    + exists n. split_and!;
        [apply elem_of_app; by right|congruence| |by rewrite Hmine].
      destruct (proj1 (Forall_forall _ _) Hks' n Hn) as [_ ->].
      replace (kw_key n) with (kw_key k) by congruence.
      apply savePositions_lookup; [by apply NoDup_fmap_filter|].
      by apply list_elem_of_filter.
  - exists k. split_and!; try done. rewrite Hmerge.
    assert (Hin : k ∈ filter (λ k, kw_sourceWebsiteId k ≠ Some W) (keywords g)
                      ++ newKs)
      by (apply elem_of_app; left; by apply list_elem_of_filter).
    rewrite ensureTestKeyword_id; [done|]. simpl.
    intros Hnil. rewrite Hnil in Hin. by inversion Hin.
Qed.

(** C3.  In a graph reached by merges and position updates, a keyword node
    whose lowercase text is that of a keyword of the merged page is still
    represented after the merge by a node with the same lowercase text and
    the same position (the very same node when it names no owner); and a
    website with the url of the page keeps its id and its lastPosition. *)
Theorem position_preservation env cfg data w :
  reachable (currentGraph (storage w)) →
  let g := currentGraph (storage w) in
  let g' := graphAfter env cfg data w in
  (∀ k kw, k ∈ keywords g → kw ∈ d_keywords data →
           toLowerCase kw = kw_key k →
           ∃ k', k' ∈ keywords g' ∧ kw_key k' = kw_key k
                 ∧ kw_position k' = kw_position k
                 ∧ (kw_sourceWebsiteId k = None → k' = k))
  ∧ (∀ s, s ∈ websites g → ws_url s = url data →
          ∃ s', s' ∈ websites g' ∧ ws_id s' = ws_id s
                ∧ ws_url s' = url data
                ∧ ws_lastPosition s' = ws_lastPosition s).
Proof.
  intros Hreach g g'. unfold g'.
  destruct (accepted env cfg data (tick w)) eqn:Hacc.
  - rewrite graphAfter_accepted by done. split.
    + intros k kw Hk Hkw Hkey.
      by apply (mergePage_keyword_position _ _ _ _ k kw); [apply reachable_inv|..].
    + intros s Hs Hurl.
      destruct (mergePage_websites env data g (S (tick w)) s Hs)
        as (s' & ? & ? & ? & ?).
      exists s'. split_and!; try done. congruence.
  - rewrite graphAfter_skipped by done. split.
    + intros k kw Hk _ _. by exists k.
    + intros s Hs Hurl. by exists s.
Qed.

Lemma positionedWorld_reachable :
  reachable (currentGraph (storage positionedWorld)).
Proof.
  exact (reachable_updateKeywordPosition _ _ _
           (reachable_processPageData sampleEnv sampleSettings
              (page "https://a.example" "A" ["React"] []) initialWorld
              reachable_empty)).
Defined.

Lemma position_preservation_witness :
  let data := page "https://a.example" "A again" ["react"] [] in
  let g' := graphAfter sampleEnv sampleSettings data positionedWorld in
  let k := mkKeywordNode "keyword-1700000000003-r3" "React" None
             (Some (mkPosition (Num 10) (Num 20))) in
  let s := mkWebsiteNode "website-1700000000001-r1" "https://a.example" "A"
             (Some "favicon.ico") 1700000000002 None in
  (∃ k', k' ∈ keywords g' ∧ kw_key k' = kw_key k
         ∧ kw_position k' = Some (mkPosition (Num 10) (Num 20))
         ∧ (kw_sourceWebsiteId k = None → k' = k))
  ∧ (∃ s', s' ∈ websites g' ∧ ws_id s' = ws_id s
           ∧ ws_url s' = "https://a.example"
           ∧ ws_lastPosition s' = None).
Proof.
  intros data g' k s.
  destruct (position_preservation sampleEnv sampleSettings data positionedWorld
              positionedWorld_reachable) as [Hkeyword Hwebsite].
  split.
  - apply (Hkeyword k "react").
    + apply list_elem_of_In. vm_compute. auto.
    + apply list_elem_of_In. vm_compute. auto.
    + reflexivity.
  - apply (Hwebsite s).
    + apply list_elem_of_In. vm_compute. auto.
    + reflexivity.
Defined.

(** The stored position (10, 20) of the example of C3 after the page is
    merged again. *)
Example position_preservation_example :
  keywords (graphAfter sampleEnv sampleSettings
              (page "https://a.example" "A again" ["react"] [])
              positionedWorld)
  = [mkKeywordNode "keyword-1700000000003-r3" "React" None
       (Some (mkPosition (Num 10) (Num 20)))].
Proof. vm_compute. reflexivity. Qed.

(** ** C4: dangling edges *)

(** What does hold of edges in every reachable graph. *)
Lemma mergePage_edgesInv env data g t :
  edgesInv g → edgesInv (mergePage env data g t).1.
Proof.
  intros [Hsrc Htgt].
  apply Forall_app in Hsrc as [HsrcK HsrcM].
  destruct (mergePage_spec env data g t)
    as (W & ws & t1 & newKs & newKEs & newMs & newMEs & t2
        & Hup & -> & _ & Hes & _ & Hms & Hmes).
  destruct (upsertWebsite_spec _ _ _ _ _ _ _ Hup)
    as ((sW & HsW & HsWid & _) & Hkeep & Hne).
  assert (Hkept : ∀ es : list Edge,
    Forall (λ e, ∃ s, s ∈ websites g ∧ ws_id s = e_source e) es →
    Forall (λ e, ∃ s, s ∈ ws ∧ ws_id s = e_source e)
           (filter (λ e, e_source e ≠ W) es)).
  { intros es Hall. apply Forall_forall. intros e [_ He]%list_elem_of_filter.
    destruct (proj1 (Forall_forall _ _) Hall e He) as (s & Hs & Hid).
    destruct (Hkeep s Hs) as (s' & ? & ? & _). exists s'. split; congruence. }
  assert (HnewK : Forall (λ e, ∃ s, s ∈ ws ∧ ws_id s = e_source e) newKEs).
  { apply Forall_forall. intros e [i Hi]%list_elem_of_lookup.
    destruct (Forall2_lookup_l _ _ _ _ _ Hes Hi) as (? & _ & -> & _).
    by exists sW. }
  assert (HnewM : Forall (λ e, ∃ s, s ∈ ws ∧ ws_id s = e_source e) newMEs).
  { apply Forall_forall. intros e [i Hi]%list_elem_of_lookup.
    destruct (Forall2_lookup_l _ _ _ _ _ Hmes Hi) as (? & _ & -> & _).
    by exists sW. }
  assert (HtgtM : Forall
    (λ e, ∃ n, n ∈ filter (λ m, mn_sourceWebsiteId m ≠ W) (mentions g) ++ newMs
               ∧ mn_id n = e_target e ∧ mn_sourceWebsiteId n = e_source e)
    (filter (λ e, e_source e ≠ W) (websiteToMentionEdges g) ++ newMEs)).
  { apply Forall_app. split.
    - apply Forall_forall. intros e [Hsrc He]%list_elem_of_filter.
      destruct (proj1 (Forall_forall _ _) Htgt e He) as (n & Hn & Hid & Hown).
      exists n. split_and!; try done. apply elem_of_app; left.
      apply list_elem_of_filter. split; [congruence|done].
    - apply Forall_forall. intros e [i Hi]%list_elem_of_lookup.
      destruct (Forall2_lookup_l _ _ _ _ _ Hmes Hi) as (n & Hn & Hsrc & Hid).
      destruct (Forall2_lookup_l _ _ _ _ _ Hms Hn) as (? & _ & _ & _ & Hown & _).
      exists n. split_and!; [|done|congruence].
      apply elem_of_app; right. by eapply list_elem_of_lookup_2. }
  destruct (ensureTestKeyword_cases env
    (mkGraphData ws
       (filter (λ k, kw_sourceWebsiteId k ≠ Some W) (keywords g) ++ newKs)
       (filter (λ m, mn_sourceWebsiteId m ≠ W) (mentions g) ++ newMs)
       (filter (λ e, e_source e ≠ W) (websiteToKeywordEdges g) ++ newKEs)
       (filter (λ e, e_source e ≠ W) (websiteToMentionEdges g) ++ newMEs)) t2)
    as [->|(w0 & rest & Hws & _ & _ & ->)]; split; simpl in *; try done.
  - rewrite !Forall_app. split_and!; auto.
  - rewrite Forall_cons, Forall_app. split_and!; auto.
    exists w0. split; [|done]. rewrite Hws. apply elem_of_cons; by left.
Qed.

Lemma updatePosition_edgesInv g :
  edgesInv g →
  (∀ id position, edgesInv (GraphStore.updateWebsitePosition id position g))
  ∧ (∀ id position, edgesInv (GraphStore.updateKeywordPosition id position g))
  ∧ (∀ id position, edgesInv (GraphStore.updateMentionPosition id position g)).
Proof.
  intros [Hsrc Htgt]. split_and!; intros id position; split; simpl; try done.
  - eapply Forall_impl; [exact Hsrc|]. intros e (s & Hs & Hid).
    eexists. split; [apply list_elem_of_fmap; exists s; split; [reflexivity|done]|].
    simpl. by destruct (decide _).
  - eapply Forall_impl; [exact Htgt|]. intros e (n & Hn & Hid & Hown).
    eexists. split; [apply list_elem_of_fmap; exists n; split; [reflexivity|done]|].
    simpl. by destruct (decide _).
Qed.

Lemma reachable_edgesInv g : reachable g → edgesInv g.
Proof.
  induction 1 as [|env cfg data w _ IH|id position g _ IH
                  |id position g _ IH|id position g _ IH].
  - split; simpl; constructor.
  - fold (graphAfter env cfg data w).
    destruct (accepted env cfg data (tick w)) eqn:Hacc.
    + rewrite graphAfter_accepted by done. by apply mergePage_edgesInv.
    + by rewrite graphAfter_skipped.
  - by apply updatePosition_edgesInv.
  - by apply updatePosition_edgesInv.
  - by apply updatePosition_edgesInv.
Qed.

(** C4 fails on the code.  A first page of site A with no keyword makes the
    test keyword, owned by A; a page of site B with the keyword
    "Test Keyword" is linked to that node; the next page of site A removes
    the node with the other keywords A owns, and with it only the edges that
    leave A.  The edge from B is left pointing at no keyword node. *)
Theorem dangling_edge_after_remerge :
  let g := currentGraph (storage threeMerges) in
  reachable g
  ∧ ∃ e, e ∈ websiteToKeywordEdges g
         ∧ (∃ s, s ∈ websites g ∧ ws_url s = "https://b.example"
                 ∧ e_source e = ws_id s)
         ∧ ∀ k, k ∈ keywords g → kw_id k ≠ e_target e.
Proof.
  intros g. split.
  { unfold g, threeMerges. do 3 apply reachable_processPageData.
    apply reachable_empty. }
  assert (Hg : g = mkGraphData
    [mkWebsiteNode "website-1700000000001-r1" "https://a.example" "A"
       (Some "favicon.ico") 1700000000012 None;
     mkWebsiteNode "website-1700000000007-r7" "https://b.example" "B"
       (Some "favicon.ico") 1700000000008 None]
    [mkKeywordNode "keyword-1700000000013-r13" "rocq" None None]
    []
    [mkEdge "edge-1700000000009-r9" "website-1700000000007-r7"
       "keyword-test-1700000000003";
     mkEdge "edge-1700000000014-r14" "website-1700000000001-r1"
       "keyword-1700000000013-r13"]
    []) by (vm_compute; reflexivity).
  rewrite Hg. simpl.
  exists (mkEdge "edge-1700000000009-r9" "website-1700000000007-r7"
            "keyword-test-1700000000003").
  split_and!.
  - apply elem_of_cons; by left.
  - exists (mkWebsiteNode "website-1700000000007-r7" "https://b.example" "B"
              (Some "favicon.ico") 1700000000008 None).
    split_and!; [|reflexivity..].
    apply elem_of_cons; right. apply elem_of_cons; by left.
  - intros k Hk. apply list_elem_of_singleton in Hk as ->. simpl. discriminate.
Qed.

(** ** C5: pages without url or title *)




(** ** C6: mention identity *)

(** C6, as amended.  An accepted merge removes every mention node of the
    website of the page and appends one newly made node, with a newly
    generated id, for each mention of the page whose text has at least two
    characters and whose context is not empty.  The new node takes the
    position of the first removed node of this website with the same
    lowercase text, if there is one, and no position otherwise. *)
Theorem mention_identity env cfg data w :
  accepted env cfg data (tick w) = true →
  let g := currentGraph (storage w) in
  let g' := graphAfter env cfg data w in
  ∃ W newMs,
    (∃ s, s ∈ websites g' ∧ ws_url s = url data ∧ ws_id s = W)
    ∧ mentions g'
      = filter (λ m, mn_sourceWebsiteId m ≠ W) (mentions g) ++ newMs
    ∧ Forall2
        (λ n md,
           mn_text n = m_text md ∧ mn_context n = m_context md
           ∧ mn_sourceWebsiteId n = W
           ∧ (∃ t0, mn_id n = freshId env "mention" t0)
           ∧ mn_position n
             = match list_find (λ m, toLowerCase (mn_text m)
                                     = toLowerCase (m_text md))
                       (filter (λ m, mn_sourceWebsiteId m = W) (mentions g))
               with
               | Some (_, m) => mn_position m
               | None => None
               end)
        newMs (validMentions data).
Proof.
  intros Hacc g g'. unfold g', g. clear g g'.
  rewrite graphAfter_accepted by done. set (g := currentGraph (storage w)).
  destruct (mergePage_spec env data g (S (tick w)))
    as (W & ws & t1 & newKs & newKEs & newMs & newMEs & t2
        & Hup & -> & _ & _ & _ & Hms & _).
  destruct (upsertWebsite_spec _ _ _ _ _ _ _ Hup)
    as ((s & Hs & Hid & Hurl & _) & _ & _).
  exists W, newMs.
  assert (HF : Forall2
    (λ n md,
       mn_text n = m_text md ∧ mn_context n = m_context md
       ∧ mn_sourceWebsiteId n = W
       ∧ (∃ t0, mn_id n = freshId env "mention" t0)
       ∧ mn_position n
         = match list_find (λ m, toLowerCase (mn_text m)
                                 = toLowerCase (m_text md))
                   (filter (λ m, mn_sourceWebsiteId m = W) (mentions g))
           with
           | Some (_, m) => mn_position m
           | None => None
           end)
    newMs (validMentions data)).
  { eapply Forall2_impl; [exact Hms|]. intros n md (? & ? & ? & Hpos & ?).
    split_and!; try done. rewrite Hpos.
    by destruct (list_find _ _) as [[i m]|]. }
  destruct (ensureTestKeyword_cases env
    (mkGraphData ws
       (filter (λ k, kw_sourceWebsiteId k ≠ Some W) (keywords g) ++ newKs)
       (filter (λ m, mn_sourceWebsiteId m ≠ W) (mentions g) ++ newMs)
       (filter (λ e, e_source e ≠ W) (websiteToKeywordEdges g) ++ newKEs)
       (filter (λ e, e_source e ≠ W) (websiteToMentionEdges g) ++ newMEs)) t2)
    as [->|(? & ? & _ & _ & _ & ->)]; simpl; split_and!; try done;
    by exists s.
Qed.

Lemma mention_identity_witness :
  let data := page "https://a.example" "A" ["react"]
                [mkMention "react hooks" "hooks, again"] in
  let g := currentGraph (storage mentionedWorld) in
  let g' := graphAfter sampleEnv sampleSettings data mentionedWorld in
  ∃ W newMs,
    (∃ s, s ∈ websites g' ∧ ws_url s = url data ∧ ws_id s = W)
    ∧ mentions g'
      = filter (λ m, mn_sourceWebsiteId m ≠ W) (mentions g) ++ newMs
    ∧ Forall2
        (λ n md,
           mn_text n = m_text md ∧ mn_context n = m_context md
           ∧ mn_sourceWebsiteId n = W
           ∧ (∃ t0, mn_id n = freshId sampleEnv "mention" t0)
           ∧ mn_position n
             = match list_find (λ m, toLowerCase (mn_text m)
                                     = toLowerCase (m_text md))
                       (filter (λ m, mn_sourceWebsiteId m = W) (mentions g))
               with
               | Some (_, m) => mn_position m
               | None => None
               end)
        newMs (validMentions data).
Proof.
  intros data g g'.
  apply (mention_identity sampleEnv sampleSettings data mentionedWorld).
  reflexivity.
Defined.

(** C6 as stated fails twice.  A mention with the text of an earlier mention
    of the same website is not resolved to the earlier node: that node is
    removed and a node with another id takes its place (with its position).
    And a mention whose text has one character, although not empty, gets no
    node at all. *)
Lemma mention_identity_counterexample :
  let data := page "https://a.example" "A" ["react"]
                [mkMention "react hooks" "hooks, again";
                 mkMention "C" "the C language"] in
  let g := currentGraph (storage mentionedWorld) in
  let g' := graphAfter sampleEnv sampleSettings data mentionedWorld in
  (∃ old, mentions g = [old] ∧ mn_text old = "React Hooks"
          ∧ mn_position old = Some (mkPosition (Num 3) (Num 4))
          ∧ ∃ new, mentions g' = [new] ∧ mn_id new ≠ mn_id old
                   ∧ mn_position new = mn_position old)
  ∧ ¬ ∃ n, n ∈ mentions g' ∧ mn_text n = "C".
Proof.
  intros data g g'.
  assert (Hg : mentions g
    = [mkMentionNode "mention-1700000000005-r5" "React Hooks"
         "website-1700000000001-r1" "React Hooks let you use state"
         (Some (mkPosition (Num 3) (Num 4)))]) by (vm_compute; reflexivity).
  assert (Hg' : mentions g'
    = [mkMentionNode "mention-1700000000011-r11" "react hooks"
         "website-1700000000001-r1" "hooks, again"
         (Some (mkPosition (Num 3) (Num 4)))]) by (vm_compute; reflexivity).
  rewrite Hg, Hg'. split.
  - eexists. split_and!; [reflexivity..|].
    eexists. split_and!; [reflexivity| |reflexivity]. simpl. discriminate.
  - intros (n & Hn & Htext). apply list_elem_of_singleton in Hn as ->.
    simpl in Htext. discriminate.
Qed.

(** ** C10: keyword nodes that outlive their pages *)




(** ** C9: search *)

Section search_facts.
Context (q : string) (state : GraphData).

Lemma search_by_title_or_url w :
  w ∈ websites state →
  includes (toLowerCase (ws_title w)) (toLowerCase q) = true
  ∨ includes (toLowerCase (ws_url w)) (toLowerCase q) = true →
  w ∈ GraphStore.r_websites (GraphStore.searchByKeyword q state).
Proof.
  intros Hw Hmatch. simpl. apply list_elem_of_filter. split; [|done].
  destruct Hmatch as [->| ->]; by rewrite ?orb_true_r.
Qed.

Lemma search_by_mention w m :
  w ∈ websites state → m ∈ mentions state → mn_sourceWebsiteId m = ws_id w →
  includes (toLowerCase (mn_text m)) (toLowerCase q) = true
  ∨ includes (toLowerCase (mn_context m)) (toLowerCase q) = true →
  w ∈ GraphStore.r_websites (GraphStore.searchByKeyword q state).
Proof.
  intros Hw Hm Hown Hmatch. simpl. apply list_elem_of_filter. split; [|done].
  apply orb_True; left. apply orb_True; left. apply bool_decide_spec.
  apply elem_of_list_to_set, elem_of_app; right.
  apply list_elem_of_fmap. exists m. split; [by rewrite Hown|].
  apply list_elem_of_filter. split; [|done].
  destruct Hmatch as [->| ->]; by rewrite ?orb_true_r.
Qed.

Lemma search_by_owned_keyword w k :
  w ∈ websites state → k ∈ keywords state →
  kw_sourceWebsiteId k = Some (ws_id w) →
  includes (toLowerCase (kw_text k)) (toLowerCase q) = true →
  w ∈ GraphStore.r_websites (GraphStore.searchByKeyword q state).
Proof.
  intros Hw Hk Hown Hmatch. simpl. apply list_elem_of_filter. split; [|done].
  apply orb_True; left. apply orb_True; left. apply bool_decide_spec.
  apply elem_of_list_to_set, elem_of_app; left.
  apply list_elem_of_fmap. exists k. split; [done|].
  apply list_elem_of_filter. split; [|done]. by rewrite Hmatch.
Qed.
End search_facts.

(** C9 fails on the code for keywords.  After the page of a component kit
    with the keyword "shadcn" is merged, a search for "shad" returns that
    keyword node, which the website has an edge to, and no website: the
    keyword nodes a merge makes name no source website, which is all the
    search looks at.  (A search for "radix", the text of a mention of the
    page, does return the website.) *)
Theorem search_misses_merged_keyword :
  let r := GraphStore.searchByKeyword "shad" uiGraph in
  (∃ k, GraphStore.r_keywords r = [k] ∧ kw_text k = "shadcn"
        ∧ linked uiGraph "https://ui.example" k)
  ∧ GraphStore.r_websites r = []
  ∧ length (GraphStore.r_websites
              (GraphStore.searchByKeyword "radix" uiGraph)) = 1.
Proof.
  intros r. split_and!.
  - exists (mkKeywordNode "keyword-1700000000003-r3" "shadcn" None None).
    split_and!; [vm_compute; reflexivity|reflexivity|].
    exists (mkWebsiteNode "website-1700000000001-r1" "https://ui.example"
              "Component kit" (Some "favicon.ico") 1700000000002 None),
      (mkEdge "edge-1700000000004-r4" "website-1700000000001-r1"
         "keyword-1700000000003-r3").
    split_and!; try reflexivity; apply list_elem_of_In; vm_compute; auto.
  - vm_compute. reflexivity.
  - vm_compute. reflexivity.
Qed.

(** The first half of C9 on the example of the specification: a website
    whose title contains "Shadcn" is found by "shad" with no keyword in the
    graph. *)
Example search_shad_title :
  let site := mkWebsiteNode "w1" "https://ui.example" "Shadcn UI" None 0 None in
  GraphStore.r_websites
    (GraphStore.searchByKeyword "shad" (mkGraphData [site] [] [] [] []))
  = [site].
Proof. vm_compute. reflexivity. Qed.

(** ** C7: deterministic initial placement *)

Lemma toInt32_range z : (- 2 ^ 31 ≤ toInt32 z < 2 ^ 31)%Z.
Proof.
  unfold toInt32.
  pose proof (Z.mod_pos_bound (z + 2 ^ 31) (2 ^ 32) eq_refl). lia.
Qed.

Lemma hashLoop_range seed : ∀ hash,
  (- 2 ^ 31 ≤ hash < 2 ^ 31)%Z → (- 2 ^ 31 ≤ hashLoop seed hash < 2 ^ 31)%Z.
Proof.
  induction seed as [|c seed IH]; intros hash Hhash; simpl; [done|].
  apply IH, toInt32_range.
Qed.


Section placement.
Context (fl : Q → Q).
Context (fl_mono : ∀ a b, (a <= b)%Q → (fl a <= fl b)%Q).
Context (fl_idem : ∀ a, (fl (fl a) == fl a)%Q).

End placement.





(** ** C8: the layout cache *)

Section cache.
Context (fl : Q → Q) (extractDomain : string → string).
Context {Simulation : Type}.
Context (d3_forceSimulation :
           list SimNode → list SimLink → list FlowNode → Dimensions → Simulation).
Context (d3_tick : Simulation → Simulation).
Context (d3_nodes : Simulation → list SimNode).






End cache.


(** * Further properties of the code *)

(** ** Substrings *)

Lemma prefix_spec (sub s : string) :
  String.prefix sub s = true ↔ ∃ post, s = sub +:+ post.
Proof.
  revert s. induction sub as [|c sub IH]; intros s.
  - split; [intros _; exists s; reflexivity|]. intros _. by destruct s.
  - destruct s as [|c' s]; simpl.
    { split; [done|]. intros [post Hpost]. discriminate. }
    destruct (Ascii.ascii_dec c c') as [->|Hne].
    + rewrite IH. split; intros [post Hpost]; exists post.
      * simpl. by rewrite Hpost.
      * simpl in Hpost. by injection Hpost.
    + split; [done|]. intros [post Hpost]. injection Hpost as Hc _.
      by destruct Hne.
Qed.

Lemma includes_spec (s sub : string) : includes s sub = true ↔ occursIn sub s.
Proof.
  induction s as [|c s IH]; cbn [includes].
  - rewrite orb_false_r, prefix_spec. split.
    + intros [post ->]. by exists "", post.
    + intros (pre & post & Heq). destruct pre; [by exists post|discriminate].
  - rewrite orb_true_iff, IH, prefix_spec. split.
    + intros [[post Heq]|(pre & post & Heq)].
      * exists "", post. done.
      * exists (String c pre), post.
        change (String c s = String c (pre +:+ sub +:+ post)). by rewrite Heq.
    + intros (pre & post & Heq). destruct pre as [|c' pre].
      * left. by exists post.
      * right. exists pre, post. by injection Heq.
Qed.

Lemma includes_empty (s : string) : includes s "" = true.
Proof. apply includes_spec. by exists "", s. Qed.

(** ** The store: search *)

Lemma includes_Is_true (s sub : string) : includes s sub ↔ occursIn sub s.
Proof. rewrite Is_true_true. apply includes_spec. Qed.

(** X1.  A search returns, in store order, exactly the keyword nodes whose
    lowercase text contains the lowercase query, the mention nodes whose
    lowercase text or context contains it, and the websites whose lowercase
    title or url contains it or that are named as source website by a
    returned keyword or mention.  The empty query returns the whole store. *)
Theorem search_characterization (q : string) (state : GraphData) :
  let r := GraphStore.searchByKeyword q state in
  (∀ k, k ∈ GraphStore.r_keywords r
        ↔ k ∈ keywords state
          ∧ occursIn (toLowerCase q) (toLowerCase (kw_text k)))
  ∧ (∀ m, m ∈ GraphStore.r_mentions r
          ↔ m ∈ mentions state
            ∧ (occursIn (toLowerCase q) (toLowerCase (mn_text m))
               ∨ occursIn (toLowerCase q) (toLowerCase (mn_context m))))
  ∧ (∀ w, w ∈ GraphStore.r_websites r
          ↔ w ∈ websites state
            ∧ (occursIn (toLowerCase q) (toLowerCase (ws_title w))
               ∨ occursIn (toLowerCase q) (toLowerCase (ws_url w))
               ∨ (∃ k, k ∈ GraphStore.r_keywords r
                       ∧ kw_sourceWebsiteId k = Some (ws_id w))
               ∨ (∃ m, m ∈ GraphStore.r_mentions r
                       ∧ mn_sourceWebsiteId m = ws_id w)))
  ∧ GraphStore.r_keywords r `sublist_of` keywords state
  ∧ GraphStore.r_mentions r `sublist_of` mentions state
  ∧ GraphStore.r_websites r `sublist_of` websites state
  ∧ GraphStore.searchByKeyword "" state
    = GraphStore.mkSearchResults (websites state) (keywords state)
        (mentions state).
Proof.
  intros r. split_and!.
  - intros k. unfold r. simpl. rewrite list_elem_of_filter, includes_Is_true.
    tauto.
  - intros m. unfold r. simpl.
    rewrite list_elem_of_filter, orb_True, !includes_Is_true. tauto.
  - intros w. unfold r. simpl.
    rewrite list_elem_of_filter, !orb_True, !includes_Is_true, bool_decide_spec.
    rewrite elem_of_list_to_set, elem_of_app, !list_elem_of_fmap.
    split.
    + intros [[[[(k & Hk & Hin)|(m & Hm & Hin)]|Ht]|Hu] Hw]; split; try done.
      * right; right; left. by exists k.
      * right; right; right. exists m. split; [done|congruence].
      * by left.
      * right; by left.
    + intros [Hw [Ht|[Hu|[(k & Hin & Hk)|(m & Hin & Hm)]]]]; split; try done.
      * left; by right.
      * by right.
      * left; left; left. by exists k.
      * left; left; right. exists m. split; [congruence|done].
  - apply sublist_filter.
  - apply sublist_filter.
  - apply sublist_filter.
  - unfold GraphStore.searchByKeyword. simpl. f_equal.
    + apply filter_all, Forall_forall. intros w _.
      rewrite !orb_True. left; right. apply Is_true_true, includes_empty.
    + apply filter_all, Forall_forall. intros k _.
      apply Is_true_true, includes_empty.
    + apply filter_all, Forall_forall. intros m _.
      rewrite orb_True. left. apply Is_true_true, includes_empty.
Qed.

(** ** The store: position updates *)

Section update_facts.
Context {A : Type} (key : A → string) (upd1 upd2 : A → A).
Context (upd_key : ∀ a, key (upd1 a) = key a).
Context (upd_twice : ∀ a, upd2 (upd1 a) = upd2 a).

Lemma update_absent (id : string) (l : list A) :
  id ∉ (key <$> l) →
  (λ a, if decide (key a = id) then upd1 a else a) <$> l = l.
Proof.
  intros Hnot. rewrite <- (list_fmap_id l) at 2.
  apply list_fmap_ext. intros i a Ha. simpl.
  destruct (decide (key a = id)) as [<-|]; [|done].
  exfalso. apply Hnot, list_elem_of_fmap. exists a.
  split; [done|by eapply list_elem_of_lookup_2].
Qed.

Lemma update_last_wins (id : string) (l : list A) :
  (λ a, if decide (key a = id) then upd2 a else a)
    <$> ((λ a, if decide (key a = id) then upd1 a else a) <$> l)
  = (λ a, if decide (key a = id) then upd2 a else a) <$> l.
Proof.
  rewrite <- list_fmap_compose. apply list_fmap_ext. intros i a _. simpl.
  destruct (decide (key a = id)) as [Heq|Hne].
  - rewrite upd_key, decide_True by done. apply upd_twice.
  - by rewrite decide_False.
Qed.
End update_facts.

(** X2.  A position update for an id that no node of the kind has leaves the
    store as it is; of two updates for the same id the later one wins; and an
    update changes nothing but the position of the nodes with that id: ids,
    texts and owners stay, in the same order, every keyword node with the id
    has the new position and every other keyword node is kept. *)
Theorem position_update (id : string) (p1 p2 : Position) (g : GraphData) :
  (id ∉ (ws_id <$> websites g) → GraphStore.updateWebsitePosition id p1 g = g)
  ∧ (id ∉ (kw_id <$> keywords g) → GraphStore.updateKeywordPosition id p1 g = g)
  ∧ (id ∉ (mn_id <$> mentions g) → GraphStore.updateMentionPosition id p1 g = g)
  ∧ GraphStore.updateWebsitePosition id p2
      (GraphStore.updateWebsitePosition id p1 g)
    = GraphStore.updateWebsitePosition id p2 g
  ∧ GraphStore.updateKeywordPosition id p2
      (GraphStore.updateKeywordPosition id p1 g)
    = GraphStore.updateKeywordPosition id p2 g
  ∧ GraphStore.updateMentionPosition id p2
      (GraphStore.updateMentionPosition id p1 g)
    = GraphStore.updateMentionPosition id p2 g
  ∧ (let g' := GraphStore.updateKeywordPosition id p1 g in
     kw_id <$> keywords g' = kw_id <$> keywords g
     ∧ kw_text <$> keywords g' = kw_text <$> keywords g
     ∧ kw_sourceWebsiteId <$> keywords g' = kw_sourceWebsiteId <$> keywords g
     ∧ (∀ k, k ∈ keywords g' → kw_id k = id → kw_position k = Some p1)
     ∧ (∀ k, k ∈ keywords g → kw_id k ≠ id → k ∈ keywords g')).
Proof.
  destruct g as [ws ks ms kes mes].
  unfold GraphStore.updateWebsitePosition, GraphStore.updateKeywordPosition,
    GraphStore.updateMentionPosition. simpl. split_and!.
  - intros Hnot. f_equal. by apply (update_absent ws_id).
  - intros Hnot. f_equal. by apply (update_absent kw_id).
  - intros Hnot. f_equal. by apply (update_absent mn_id).
  - f_equal. by apply (update_last_wins ws_id).
  - f_equal. by apply (update_last_wins kw_id).
  - f_equal. by apply (update_last_wins mn_id).
  - rewrite <- list_fmap_compose. apply list_fmap_ext. intros i k _. simpl.
    by destruct (decide _).
  - rewrite <- list_fmap_compose. apply list_fmap_ext. intros i k _. simpl.
    by destruct (decide _).
  - rewrite <- list_fmap_compose. apply list_fmap_ext. intros i k _. simpl.
    by destruct (decide _).
  - intros k (k0 & -> & Hk0)%list_elem_of_fmap Hid.
    destruct (decide (kw_id k0 = id)); [done|]. by simpl in Hid.
  - intros k Hk Hid. apply list_elem_of_fmap. exists k.
    by rewrite decide_False.
Qed.

Lemma position_update_witness :
  GraphStore.updateKeywordPosition "no-such-id" (mkPosition (Num 1) (Num 2))
    uiGraph = uiGraph.
Proof.
  apply (proj1 (proj2 (position_update "no-such-id" (mkPosition (Num 1) (Num 2))
                         (mkPosition (Num 1) (Num 2)) uiGraph))).
  intros Hin. apply list_elem_of_In in Hin. vm_compute in Hin.
  destruct Hin as [Heq|[Heq|[]]]; discriminate.
Defined.

(** ** The store: removing and adding *)

Lemma not_elem_of_fmap_filter {A} (f : A → string) (id : string) (l : list A) :
  id ∉ f <$> filter (λ a, f a ≠ id) l.
Proof.
  intros (a & -> & [Hne _]%list_elem_of_filter)%list_elem_of_fmap. done.
Qed.

Lemma Forall_filter_kept {A} (P Q : A → Prop) `{!∀ a, Decision (Q a)}
    (l : list A) :
  Forall P l → Forall P (filter Q l).
Proof.
  intros Hall. apply Forall_forall. intros a [_ Ha]%list_elem_of_filter.
  by apply (proj1 (Forall_forall _ _) Hall).
Qed.

(** X3.  Removing a keyword node by id leaves no keyword node with that id
    and no keyword edge that arrives at it, keeps every other keyword node
    and keyword edge and the rest of the store, and keeps keyword edges
    consistent: if every keyword edge arrived at an existing keyword node
    before, it does so afterwards.  Removing a mention node does the same for
    the mention nodes and the mention edges. *)
Theorem remove_node_consistent (id : string) (g : GraphData) :
  (let g' := GraphStore.removeKeyword id g in
   (id ∉ (kw_id <$> keywords g'))
   ∧ (id ∉ (e_target <$> websiteToKeywordEdges g'))
   ∧ (∀ k, k ∈ keywords g → kw_id k ≠ id → k ∈ keywords g')
   ∧ (∀ e, e ∈ websiteToKeywordEdges g → e_target e ≠ id
           → e ∈ websiteToKeywordEdges g')
   ∧ websites g' = websites g ∧ mentions g' = mentions g
   ∧ websiteToMentionEdges g' = websiteToMentionEdges g
   ∧ (keywordTargetsExist g → keywordTargetsExist g')
   ∧ (edgesInv g → edgesInv g'))
  ∧ (let g' := GraphStore.removeMention id g in
     (id ∉ (mn_id <$> mentions g'))
     ∧ (id ∉ (e_target <$> websiteToMentionEdges g'))
     ∧ (∀ m, m ∈ mentions g → mn_id m ≠ id → m ∈ mentions g')
     ∧ (∀ e, e ∈ websiteToMentionEdges g → e_target e ≠ id
             → e ∈ websiteToMentionEdges g')
     ∧ websites g' = websites g ∧ keywords g' = keywords g
     ∧ websiteToKeywordEdges g' = websiteToKeywordEdges g
     ∧ (keywordTargetsExist g → keywordTargetsExist g')
     ∧ (edgesInv g → edgesInv g')).
Proof.
  split; simpl; split_and!; try done.
  - apply not_elem_of_fmap_filter.
  - apply not_elem_of_fmap_filter.
  - intros k Hk Hid. by apply list_elem_of_filter.
  - intros e He Hid. by apply list_elem_of_filter.
  - intros Hall. apply Forall_forall.
    intros e [Hne He]%list_elem_of_filter.
    destruct (proj1 (Forall_forall _ _) Hall e He) as (k & Hk & Hid).
    exists k. split; [|done]. apply list_elem_of_filter. split; [congruence|done].
  - intros [Hsrc Htgt]. split; simpl; [|done].
    apply Forall_app in Hsrc as [HsrcK HsrcM]. apply Forall_app. split; [|done].
    by apply Forall_filter_kept.
  - apply not_elem_of_fmap_filter.
  - apply not_elem_of_fmap_filter.
  - intros m Hm Hid. by apply list_elem_of_filter.
  - intros e He Hid. by apply list_elem_of_filter.
  - intros [Hsrc Htgt]. split; simpl.
    + apply Forall_app in Hsrc as [HsrcK HsrcM]. apply Forall_app. split; [done|].
      by apply Forall_filter_kept.
    + apply Forall_forall. intros e [Hne He]%list_elem_of_filter.
      destruct (proj1 (Forall_forall _ _) Htgt e He) as (n & Hn & Hid & Hown).
      exists n. split_and!; try done.
      apply list_elem_of_filter. split; [congruence|done].
Qed.

Lemma remove_node_consistent_witness :
  keywordTargetsExist
    (GraphStore.removeKeyword "keyword-1700000000003-r3" uiGraph).
Proof.
  apply (proj1 (remove_node_consistent "keyword-1700000000003-r3" uiGraph)).
  apply Forall_forall. intros e He. apply list_elem_of_In in He.
  vm_compute in He. destruct He as [<-|[<-|[]]].
  - exists (mkKeywordNode "keyword-1700000000003-r3" "shadcn" None None).
    split; [apply list_elem_of_In; vm_compute; auto|reflexivity].
  - exists (mkKeywordNode "keyword-1700000000005-r5" "tailwind" None None).
    split; [apply list_elem_of_In; vm_compute; auto|reflexivity].
Defined.

(** X4.  Removing a website by id leaves no website with that id, no mention
    node and no keyword node that names it as source, and no edge that leaves
    it; every other website is kept; and in the store that results every
    edge still leaves an existing website and every mention edge still
    arrives at an existing mention of that website, if that was so before. *)
Theorem removeWebsite_consistent (id : string) (g : GraphData) :
  let g' := GraphStore.removeWebsite id g in
  (id ∉ (ws_id <$> websites g'))
  ∧ (id ∉ (mn_sourceWebsiteId <$> mentions g'))
  ∧ (Some id ∉ (kw_sourceWebsiteId <$> keywords g'))
  ∧ (id ∉ (e_source <$> websiteToKeywordEdges g'))
  ∧ (id ∉ (e_source <$> websiteToMentionEdges g'))
  ∧ (∀ s, s ∈ websites g → ws_id s ≠ id → s ∈ websites g')
  ∧ (edgesInv g → edgesInv g').
Proof.
  simpl. split_and!.
  - apply not_elem_of_fmap_filter.
  - apply not_elem_of_fmap_filter.
  - intros (k & Heq & [Hne _]%list_elem_of_filter)%list_elem_of_fmap. done.
  - apply not_elem_of_fmap_filter.
  - apply not_elem_of_fmap_filter.
  - intros s Hs Hid. by apply list_elem_of_filter.
  - intros [Hsrc Htgt]. split; simpl.
    + rewrite <- filter_app. apply Forall_forall.
      intros e [Hne He]%list_elem_of_filter.
      destruct (proj1 (Forall_forall _ _) Hsrc e He) as (s & Hs & Hid).
      exists s. split; [|done]. apply list_elem_of_filter.
      split; [congruence|done].
    + apply Forall_forall. intros e [Hne He]%list_elem_of_filter.
      destruct (proj1 (Forall_forall _ _) Htgt e He) as (n & Hn & Hid & Hown).
      exists n. split_and!; try done.
      apply list_elem_of_filter. split; [congruence|done].
Qed.

Lemma removeWebsite_consistent_witness :
  edgesInv (GraphStore.removeWebsite "website-1700000000001-r1" uiGraph).
Proof.
  apply (proj2 (proj2 (proj2 (proj2 (proj2 (proj2
           (removeWebsite_consistent "website-1700000000001-r1" uiGraph))))))).
  apply reachable_edgesInv. unfold uiGraph, graphAfter.
  apply reachable_processPageData, reachable_empty.
Defined.

Lemma filter_snoc_fresh {A} (P : A → Prop) `{!∀ a, Decision (P a)}
    (l : list A) (a : A) :
  Forall P l → ¬ P a → filter P (l ++ [a]) = l.
Proof.
  intros Hall Ha. rewrite filter_app, filter_all by done.
  rewrite filter_cons_False by done. apply app_nil_r.
Qed.

Lemma Forall_not_key {A} (f : A → string) (id : string) (l : list A) :
  id ∉ (f <$> l) → Forall (λ a, f a ≠ id) l.
Proof.
  intros Hnot. apply Forall_forall. intros a Ha Heq. apply Hnot.
  apply list_elem_of_fmap. by exists a.
Qed.

(** X5.  Adding and then removing is a round trip when the generated id is
    new: a keyword node added to a store that has no keyword node with the id
    and no keyword edge arriving at the id, then removed by the id returned,
    leaves the store as it was; so does a mention node, and so does an edge of
    either kind when no edge of the kind has the id. *)
Theorem add_remove_round_trip (env : Env) (t : nat) (g : GraphData) :
  let id := GraphStore.generateId env t in
  (∀ text source position,
     id ∉ (kw_id <$> keywords g) →
     id ∉ (e_target <$> websiteToKeywordEdges g) →
     let added := GraphStore.addKeyword env t text source position g in
     added.1 = id ∧ GraphStore.removeKeyword added.1 added.2 = g)
  ∧ (∀ text source context position,
       id ∉ (mn_id <$> mentions g) →
       id ∉ (e_target <$> websiteToMentionEdges g) →
       let added := GraphStore.addMention env t text source context position g in
       added.1 = id ∧ GraphStore.removeMention added.1 added.2 = g)
  ∧ (∀ source target,
       id ∉ (e_id <$> websiteToKeywordEdges g) →
       let added := GraphStore.addWebsiteToKeywordEdge env t source target g in
       added.1 = id ∧ GraphStore.removeWebsiteToKeywordEdge added.1 added.2 = g)
  ∧ (∀ source target,
       id ∉ (e_id <$> websiteToMentionEdges g) →
       let added := GraphStore.addWebsiteToMentionEdge env t source target g in
       added.1 = id ∧ GraphStore.removeWebsiteToMentionEdge added.1 added.2 = g).
Proof.
  destruct g as [ws ks ms kes mes]. intros id. split_and!; simpl.
  - intros text source position Hks Hes. split; [done|].
    unfold GraphStore.removeKeyword. simpl. f_equal.
    + apply filter_snoc_fresh; [by apply Forall_not_key|]. simpl. by intros [].
    + apply filter_all. by apply (Forall_not_key e_target).
  - intros text source context position Hms Hes. split; [done|].
    unfold GraphStore.removeMention. simpl. f_equal.
    + apply filter_snoc_fresh; [by apply Forall_not_key|]. simpl. by intros [].
    + apply filter_all. by apply (Forall_not_key e_target).
  - intros source target Hes. split; [done|].
    unfold GraphStore.removeWebsiteToKeywordEdge. simpl. f_equal.
    apply filter_snoc_fresh; [by apply Forall_not_key|]. simpl. by intros [].
  - intros source target Hes. split; [done|].
    unfold GraphStore.removeWebsiteToMentionEdge. simpl. f_equal.
    apply filter_snoc_fresh; [by apply Forall_not_key|]. simpl. by intros [].
Qed.

Lemma add_remove_round_trip_witness :
  let added := GraphStore.addKeyword sampleEnv 40 "react" None None uiGraph in
  added.1 = "1700000000040-r40"
  ∧ GraphStore.removeKeyword added.1 added.2 = uiGraph.
Proof.
  apply (proj1 (add_remove_round_trip sampleEnv 40 uiGraph) "react" None None).
  - intros Hin. apply list_elem_of_In in Hin. vm_compute in Hin.
    destruct Hin as [Heq|[Heq|[]]]; discriminate.
  - intros Hin. apply list_elem_of_In in Hin. vm_compute in Hin.
    destruct Hin as [Heq|[Heq|[]]]; discriminate.
Defined.

(** ** The merge: websites *)

Lemma upsertWebsite_shape env data t ws :
  (∃ i w, list_find (λ w, ws_url w = url data) ws = Some (i, w)
          ∧ upsertWebsite env data t ws
            = (ws_id w,
               <[i := mkWebsiteNode (ws_id w) (ws_url w) (title data)
                        (Some (favicon data)) (Date_now env t)
                        (ws_lastPosition w)]> ws,
               S t)
          ∧ url data ∈ ws_url <$> ws)
  ∨ (list_find (λ w, ws_url w = url data) ws = None
     ∧ upsertWebsite env data t ws
       = (freshId env "website" t,
          ws ++ [mkWebsiteNode (freshId env "website" t) (url data)
                   (title data) (Some (favicon data)) (Date_now env (S t))
                   None],
          S (S t))
     ∧ url data ∉ ws_url <$> ws).
Proof.
  unfold upsertWebsite.
  destruct (list_find _ ws) as [[i w]|] eqn:Hfind.
  - left. exists i, w. split_and!; try done.
    apply list_find_Some in Hfind as (Hi & Hurl & _).
    apply list_elem_of_fmap. exists w.
    split; [done|by eapply list_elem_of_lookup_2].
  - right. split_and!; try done.
    apply list_find_None in Hfind.
    intros (w & Heq & Hw)%list_elem_of_fmap.
    by apply (proj1 (Forall_forall _ _) Hfind w Hw).
Qed.

Lemma fmap_insert_same {A B} (f : A → B) (l : list A) i a a' :
  l !! i = Some a → f a' = f a → f <$> <[i := a']> l = f <$> l.
Proof.
  intros Hi Hf. rewrite list_fmap_insert, Hf.
  apply list_insert_id. by rewrite list_lookup_fmap, Hi.
Qed.

Lemma mergePage_websites_eq env data g t :
  websites (mergePage env data g t).1
  = (upsertWebsite env data t (websites g)).1.2.
Proof.
  destruct (mergePage_spec env data g t)
    as (W & ws & t1 & newKs & newKEs & newMs & newMEs & t2 & Hup & -> & _).
  rewrite Hup. simpl.
  by destruct (ensureTestKeyword_cases env
    (mkGraphData ws
       (filter (λ k, kw_sourceWebsiteId k ≠ Some W) (keywords g) ++ newKs)
       (filter (λ m, mn_sourceWebsiteId m ≠ W) (mentions g) ++ newMs)
       (filter (λ e, e_source e ≠ W) (websiteToKeywordEdges g) ++ newKEs)
       (filter (λ e, e_source e ≠ W) (websiteToMentionEdges g) ++ newMEs)) t2)
    as [->|(? & ? & _ & _ & _ & ->)].
Qed.

Lemma mergePage_urls env data g t :
  NoDup (ws_url <$> websites g) →
  NoDup (ws_url <$> websites (mergePage env data g t).1).
Proof.
  intros Hnd. rewrite mergePage_websites_eq.
  destruct (upsertWebsite_shape env data t (websites g))
    as [(i & w & Hfind & -> & _)|(_ & -> & Hnew)]; simpl.
  - apply list_find_Some in Hfind as (Hi & _ & _).
    by erewrite fmap_insert_same.
  - rewrite fmap_app. apply NoDup_app. split_and!; [done| |apply NoDup_singleton].
    intros u Hu ->%list_elem_of_singleton. done.
Qed.

(** X6.  In every graph reached from the empty one by merges and position
    updates, no two website nodes have the same url. *)
Theorem website_urls_unique (g : GraphData) :
  reachable g → NoDup (ws_url <$> websites g).
Proof.
  induction 1 as [|env cfg data w _ IH|id position g _ IH| |]; try done.
  - constructor.
  - fold (graphAfter env cfg data w).
    destruct (accepted env cfg data (tick w)) eqn:Hacc.
    + rewrite graphAfter_accepted by done. by apply mergePage_urls.
    + by rewrite graphAfter_skipped.
  - simpl. rewrite <- list_fmap_compose.
    erewrite list_fmap_ext; [exact IH|]. intros i s _. simpl.
    by destruct (decide _).
Qed.

Lemma website_urls_unique_witness :
  NoDup (ws_url <$> websites (currentGraph (storage threeMerges))).
Proof.
  apply website_urls_unique. unfold threeMerges.
  do 3 apply reachable_processPageData. apply reachable_empty.
Defined.

(** X7.  An accepted merge never removes a website and never changes an id,
    a url or a lastPosition.  When the url of the page is already in the
    graph the list of websites keeps its length and its ids, in order; when
    it is not, exactly one website is appended, with the url and the title of
    the page, a newly generated id and no lastPosition. *)
Theorem website_upsert env cfg data w :
  accepted env cfg data (tick w) = true →
  let g := currentGraph (storage w) in
  let g' := graphAfter env cfg data w in
  (url data ∈ ws_url <$> websites g →
   ws_id <$> websites g' = ws_id <$> websites g
   ∧ ws_url <$> websites g' = ws_url <$> websites g
   ∧ ws_lastPosition <$> websites g' = ws_lastPosition <$> websites g)
  ∧ (url data ∉ ws_url <$> websites g →
     websites g'
     = websites g
       ++ [mkWebsiteNode (freshId env "website" (S (tick w))) (url data)
             (title data) (Some (favicon data))
             (Date_now env (S (S (tick w)))) None]).
Proof.
  intros Hacc g g'. unfold g'. rewrite graphAfter_accepted by done.
  rewrite mergePage_websites_eq. fold g.
  destruct (upsertWebsite_shape env data (S (tick w)) (websites g))
    as [(i & s & Hfind & -> & Hin)|(_ & -> & Hnew)]; simpl.
  - split; [|done]. intros _.
    apply list_find_Some in Hfind as (Hi & _ & _).
    split_and!; by erewrite fmap_insert_same.
  - split; [done|]. done.
Qed.

Lemma website_upsert_witness :
  let w := processPageData sampleEnv sampleSettings
             (page "https://a.example" "A" ["rocq"] []) initialWorld in
  let g' := graphAfter sampleEnv sampleSettings
              (page "https://a.example" "A, again" ["stdpp"] []) w in
  ws_id <$> websites g' = ws_id <$> websites (currentGraph (storage w))
  ∧ ws_url <$> websites g' = ws_url <$> websites (currentGraph (storage w))
  ∧ ws_lastPosition <$> websites g'
    = ws_lastPosition <$> websites (currentGraph (storage w)).
Proof.
  intros w g'.
  apply (proj1 (website_upsert sampleEnv sampleSettings
                  (page "https://a.example" "A, again" ["stdpp"] []) w
                  eq_refl)).
  apply list_elem_of_In. vm_compute. auto.
Defined.

(** ** The merge: the same page again *)

Lemma upsertWebsite_again env data t ws W ws1 t1 env2 data2 t2 :
  upsertWebsite env data t ws = (W, ws1, t1) → url data2 = url data →
  ∃ ws2 t2',
    upsertWebsite env2 data2 t2 ws1 = (W, ws2, t2')
    ∧ ws_id <$> ws2 = ws_id <$> ws1.
Proof.
  intros Hup Hurl.
  assert (Hfind1 : ∃ i s, list_find (λ w, ws_url w = url data2) ws1 = Some (i, s)
                          ∧ ws_id s = W).
  { rewrite Hurl.
    destruct (upsertWebsite_shape env data t ws)
      as [(i & s & Hfind & Heq & _)|(Hfind & Heq & _)];
      rewrite Heq in Hup; injection Hup as <- <- <-.
    - exists i, (mkWebsiteNode (ws_id s) (ws_url s) (title data)
                   (Some (favicon data)) (Date_now env t) (ws_lastPosition s)).
      split; [|reflexivity].
      pose proof Hfind as (Hi & Hs & Hbefore)%list_find_Some.
      apply list_find_Some. split_and!.
      + apply list_lookup_insert_eq. by eapply lookup_lt_Some.
      + done.
      + intros j y Hj Hlt. rewrite list_lookup_insert_ne in Hj by lia.
        by eapply Hbefore.
    - exists (length ws),
        (mkWebsiteNode (freshId env "website" t) (url data) (title data)
           (Some (favicon data)) (Date_now env (S t)) None).
      split; [|reflexivity].
      rewrite list_find_app_r by done. simpl.
      rewrite decide_True by done. reflexivity. }
  destruct Hfind1 as (i & s & Hfind & Hid).
  destruct (upsertWebsite_shape env2 data2 t2 ws1)
    as [(i' & s' & Hfind' & Heq & _)|(Hfind' & _)]; [|congruence].
  assert (i' = i ∧ s' = s) as [-> ->] by (split; congruence).
  rewrite Heq, Hid. eexists _, _. split; [reflexivity|].
  apply list_find_Some in Hfind as (Hi & _ & _). by erewrite fmap_insert_same.
Qed.

Lemma keywordLoop_all_found env W kp kws : ∀ ks es t,
  (∀ kw, kw ∈ kws → 3 ≤ String.length kw →
         ∃ k, k ∈ ks ∧ kw_key k = toLowerCase kw) →
  (keywordLoop env W kp kws ks es t).1.1 = ks.
Proof.
  induction kws as [|kw kws IH]; intros ks es t Hall; simpl; [done|].
  destruct (Nat.ltb_spec (String.length kw) 3) as [Hshort|Hlong].
  - apply IH. intros kw' Hkw'. apply Hall. by apply elem_of_cons; right.
  - destruct (list_find _ ks) as [[i k0]|] eqn:Hfind.
    + apply IH. intros kw' Hkw'. apply Hall. by apply elem_of_cons; right.
    + exfalso. apply list_find_None in Hfind.
      destruct (Hall kw) as (k & Hk & Hkey);
        [by apply elem_of_cons; left|done|].
      by apply (proj1 (Forall_forall _ _) Hfind k Hk).
Qed.

Lemma mergePage_keywords_nonempty env data g t W ws t1 :
  upsertWebsite env data t (websites g) = (W, ws, t1) →
  let ks :=
    (keywordLoop env W
       (savePositions
          (filter (λ k, kw_sourceWebsiteId k = Some W) (keywords g)))
       (d_keywords data)
       (filter (λ k, kw_sourceWebsiteId k ≠ Some W) (keywords g))
       (filter (λ e, e_source e ≠ W) (websiteToKeywordEdges g)) t1).1.1 in
  ks ≠ [] → keywords (mergePage env data g t).1 = ks.
Proof.
  intros Hup ks Hne. unfold mergePage. rewrite Hup. unfold ks in *. clear ks.
  destruct (keywordLoop _ _ _ _ _ _ _) as [[ks kes] t'].
  destruct (mentionLoop _ _ _ _ _ _ _) as [[ms mes] t''].
  simpl in *. by rewrite ensureTestKeyword_id.
Qed.

(** X8.  Merging a page and then a page with the same url and the same
    keyword list, of which at least one has three characters or more, leaves
    the keyword nodes after the second merge exactly as they were after the
    first (same nodes, same ids, same order), and the website ids too. *)
Theorem remerge_keeps_keywords env1 cfg1 d1 env2 cfg2 d2 w :
  accepted env1 cfg1 d1 (tick w) = true →
  accepted env2 cfg2 d2 (tick (processPageData env1 cfg1 d1 w)) = true →
  url d2 = url d1 → d_keywords d2 = d_keywords d1 →
  validKeywords d1 ≠ [] →
  let g1 := graphAfter env1 cfg1 d1 w in
  let g2 := graphAfter env2 cfg2 d2 (processPageData env1 cfg1 d1 w) in
  keywords g2 = keywords g1
  ∧ ws_id <$> websites g2 = ws_id <$> websites g1.
Proof.
  intros Hacc1 Hacc2 Hurl Hkws Hvalid g1 g2.
  assert (Hg2 : g2 = (mergePage env2 d2 g1
                        (S (tick (processPageData env1 cfg1 d1 w)))).1)
    by by apply graphAfter_accepted.
  assert (Hg1 : g1 = (mergePage env1 d1 (currentGraph (storage w))
                        (S (tick w))).1)
    by by apply graphAfter_accepted.
  destruct (mergePage_spec env1 d1 (currentGraph (storage w)) (S (tick w)))
    as (W & ws1 & t1 & newKs & newKEs & newMs & newMEs & t2
        & Hup1 & Hm1 & Hks & Hes & _).
  (* the first merge makes or finds a node for every keyword it keeps *)
  assert (Hsome : ∃ kw, kw ∈ validKeywords d1).
  { destruct (validKeywords d1) as [|kw ?]; [done|].
    exists kw. by apply elem_of_cons; left. }
  destruct Hsome as [kw0 Hkw0].
  destruct (Forall2_elem_of_r _ _ _ _ Hes Hkw0) as (_ & _ & _ & n0 & Hn0 & _).
  rewrite Hm1 in Hg1. rewrite ensureTestKeyword_id in Hg1
    by (simpl; intros Hnil; rewrite Hnil in Hn0; by inversion Hn0).
  (* the second merge finds the same website *)
  assert (Hws1 : websites g1 = ws1) by by rewrite Hg1.
  destruct (upsertWebsite_again env1 d1 (S (tick w))
              (websites (currentGraph (storage w))) W ws1 t1 env2 d2
              (S (tick (processPageData env1 cfg1 d1 w))) Hup1 Hurl)
    as (ws2 & t2' & Hup2 & Hids).
  rewrite <- Hws1 in Hup2.
  (* which owns none of the keyword nodes *)
  assert (Hfree : Forall (λ k, kw_sourceWebsiteId k ≠ Some W) (keywords g1)).
  { rewrite Hg1. simpl. apply Forall_app. split.
    - apply Forall_forall. by intros k [? _]%list_elem_of_filter.
    - eapply Forall_impl; [exact Hks|]. intros k (Hnone & _). by rewrite Hnone. }
  assert (Hkeys : ∀ kw, kw ∈ d_keywords d2 → 3 ≤ String.length kw →
                        ∃ k, k ∈ keywords g1 ∧ kw_key k = toLowerCase kw).
  { intros kw Hkw Hlen. rewrite Hkws in Hkw.
    assert (Hv : kw ∈ validKeywords d1) by (by apply list_elem_of_filter).
    destruct (Forall2_elem_of_r _ _ _ _ Hes Hv) as (_ & _ & _ & k & Hk & _ & Hkey).
    exists k. split; [by rewrite Hg1|done]. }
  pose proof (mergePage_keywords_nonempty env2 d2 g1 _ W ws2 t2' Hup2) as Hk2.
  simpl in Hk2. rewrite (filter_all _ (keywords g1) Hfree) in Hk2.
  rewrite keywordLoop_all_found in Hk2 by done.
  split.
  - rewrite Hg2. apply Hk2. rewrite Hg1. simpl.
    intros Hnil. rewrite Hnil in Hn0. by inversion Hn0.
  - rewrite Hg2, mergePage_websites_eq, Hup2. simpl. by rewrite Hids, Hws1.
Qed.

Lemma remerge_keeps_keywords_witness :
  let d := page "https://a.example" "A" ["React"; "ab"; "hooks"] [] in
  let w1 := processPageData sampleEnv sampleSettings d initialWorld in
  keywords (graphAfter sampleEnv sampleSettings d w1)
  = keywords (graphAfter sampleEnv sampleSettings d initialWorld)
  ∧ ws_id <$> websites (graphAfter sampleEnv sampleSettings d w1)
    = ws_id <$> websites (graphAfter sampleEnv sampleSettings d initialWorld).
Proof.
  intros d w1.
  apply (remerge_keeps_keywords sampleEnv sampleSettings d
           sampleEnv sampleSettings d initialWorld);
    try reflexivity.
  vm_compute. discriminate.
Defined.

(** ** The merge: what belongs to other websites *)

Lemma filter_other_owner {A} (f : A → string) (W W' : string)
    (l new : list A) :
  W' ≠ W → Forall (λ a, f a = W) new →
  filter (λ a, f a = W') (filter (λ a, f a ≠ W) l ++ new)
  = filter (λ a, f a = W') l.
Proof.
  intros Hne Hnew. rewrite filter_app, list_filter_filter.
  rewrite (filter_none _ new), app_nil_r.
  - apply list_filter_iff. intros a. split; [by intros [? _]|].
    intros Ha. split; [done|congruence].
  - eapply Forall_impl; [exact Hnew|]. intros a Ha. simpl. congruence.
Qed.

(** X9.  An accepted merge of a page leaves the mentions of every other
    website alone: for each website id other than that of the page's website,
    the mention nodes that name it as source and the mention edges that leave
    it are the same after the merge as before, in the same order. *)
Theorem merge_frames_other_mentions env cfg data w :
  accepted env cfg data (tick w) = true →
  let g := currentGraph (storage w) in
  let g' := graphAfter env cfg data w in
  ∃ W,
    (∃ s, s ∈ websites g' ∧ ws_url s = url data ∧ ws_id s = W)
    ∧ ∀ W', W' ≠ W →
        GraphStore.getMentionsForWebsite W' g'
        = GraphStore.getMentionsForWebsite W' g
        ∧ outgoing W' (websiteToMentionEdges g')
          = outgoing W' (websiteToMentionEdges g).
Proof.
  intros Hacc g g'. unfold g', g. clear g g'.
  rewrite graphAfter_accepted by done. set (g := currentGraph (storage w)).
  destruct (mergePage_spec env data g (S (tick w)))
    as (W & ws & t1 & newKs & newKEs & newMs & newMEs & t2
        & Hup & -> & _ & _ & _ & Hms & Hmes).
  destruct (upsertWebsite_spec _ _ _ _ _ _ _ Hup)
    as ((s & Hs & Hid & Hurl & _) & _ & _).
  assert (HownM : Forall (λ n, mn_sourceWebsiteId n = W) newMs).
  { apply Forall_forall. intros n [i Hi]%list_elem_of_lookup.
    by destruct (Forall2_lookup_l _ _ _ _ _ Hms Hi) as (? & _ & _ & _ & ? & _). }
  assert (HsrcM : Forall (λ e, e_source e = W) newMEs).
  { apply Forall_forall. intros e [i Hi]%list_elem_of_lookup.
    by destruct (Forall2_lookup_l _ _ _ _ _ Hmes Hi) as (? & _ & ? & _). }
  exists W.
  destruct (ensureTestKeyword_cases env
    (mkGraphData ws
       (filter (λ k, kw_sourceWebsiteId k ≠ Some W) (keywords g) ++ newKs)
       (filter (λ m, mn_sourceWebsiteId m ≠ W) (mentions g) ++ newMs)
       (filter (λ e, e_source e ≠ W) (websiteToKeywordEdges g) ++ newKEs)
       (filter (λ e, e_source e ≠ W) (websiteToMentionEdges g) ++ newMEs)) t2)
    as [->|(? & ? & _ & _ & _ & ->)]; simpl;
    (split; [by exists s|]); intros W' Hne;
    unfold GraphStore.getMentionsForWebsite, outgoing; simpl;
    split; by apply filter_other_owner.
Qed.

Lemma merge_frames_other_mentions_witness :
  let data := page "https://b.example" "B" ["hooks"]
                [mkMention "React Hooks" "hooks on another site"] in
  let g := currentGraph (storage mentionedWorld) in
  let g' := graphAfter sampleEnv sampleSettings data mentionedWorld in
  GraphStore.getMentionsForWebsite "website-1700000000001-r1" g'
  = GraphStore.getMentionsForWebsite "website-1700000000001-r1" g
  ∧ outgoing "website-1700000000001-r1" (websiteToMentionEdges g')
    = outgoing "website-1700000000001-r1" (websiteToMentionEdges g).
Proof.
  intros data g g'.
  destruct (merge_frames_other_mentions sampleEnv sampleSettings data
              mentionedWorld eq_refl) as (W & (s & Hs & Hurl & Hid) & Hframe).
  apply Hframe. rewrite <- Hid.
  apply list_elem_of_In in Hs. vm_compute in Hs.
  destruct Hs as [<-|[<-|[]]]; [discriminate Hurl|discriminate].
Defined.

(** ** The merge: edges and owners in reachable graphs *)

(** X10.  In every graph reached from the empty one by merges and position
    updates, every edge of either kind leaves an existing website, and every
    mention edge arrives at an existing mention node whose source website is
    the website the edge leaves. *)
Theorem edge_sources_and_mention_targets (g : GraphData) :
  reachable g →
  (∀ e, e ∈ websiteToKeywordEdges g ∨ e ∈ websiteToMentionEdges g →
        ∃ s, s ∈ websites g ∧ ws_id s = e_source e)
  ∧ (∀ e, e ∈ websiteToMentionEdges g →
          ∃ n, n ∈ mentions g ∧ mn_id n = e_target e
               ∧ mn_sourceWebsiteId n = e_source e).
Proof.
  intros [Hsrc Htgt]%reachable_edgesInv. split.
  - intros e He. apply (proj1 (Forall_forall _ _) Hsrc e).
    by apply elem_of_app.
  - intros e He. by apply (proj1 (Forall_forall _ _) Htgt e).
Qed.

Lemma edge_sources_and_mention_targets_witness :
  ∃ s, s ∈ websites (currentGraph (storage threeMerges))
       ∧ ws_id s = "website-1700000000007-r7".
Proof.
  assert (Hreach : reachable (currentGraph (storage threeMerges))).
  { unfold threeMerges. do 3 apply reachable_processPageData.
    apply reachable_empty. }
  apply (proj1 (edge_sources_and_mention_targets _ Hreach)
           (mkEdge "edge-1700000000009-r9" "website-1700000000007-r7"
              "keyword-test-1700000000003")).
  left. apply list_elem_of_In. vm_compute. auto.
Defined.

(** X11.  In a reachable graph the keyword nodes a website owns are at most
    the test keyword: [getKeywordsForWebsite] returns the empty list or the
    one node with the text "Test Keyword", never a keyword of a page.  After
    an accepted merge, [getMentionsForWebsite] for the website of the page
    returns one node for each mention of the page that is not skipped, in
    page order, with its text and context. *)
Theorem nodes_for_website env cfg data w :
  reachable (currentGraph (storage w)) →
  accepted env cfg data (tick w) = true →
  let g' := graphAfter env cfg data w in
  (∀ W, GraphStore.getKeywordsForWebsite W g' = []
        ∨ ∃ k, GraphStore.getKeywordsForWebsite W g' = [k]
               ∧ kw_text k = "Test Keyword")
  ∧ ∃ W,
      (∃ s, s ∈ websites g' ∧ ws_url s = url data ∧ ws_id s = W)
      ∧ Forall2 (λ n md, mn_text n = m_text md ∧ mn_context n = m_context md)
                (GraphStore.getMentionsForWebsite W g') (validMentions data).
Proof.
  intros Hreach Hacc g'.
  assert (Hreach' : reachable g') by by constructor.
  split.
  - intros W. destruct (reachable_inv _ Hreach') as [Hnd Hown].
    unfold GraphStore.getKeywordsForWebsite.
    destruct (filter _ (keywords g')) as [|k rest] eqn:Hf; [by left|].
    right. exists k.
    assert (Hk : k ∈ filter (λ k, kw_sourceWebsiteId k = Some W) (keywords g'))
      by (rewrite Hf; by apply elem_of_cons; left).
    apply list_elem_of_filter in Hk as [HkW Hk].
    assert (Htext : kw_text k = "Test Keyword").
    { apply (proj1 (Forall_forall _ _) Hown k Hk). by rewrite HkW. }
    split; [|done]. f_equal. destruct rest as [|k2 rest]; [done|]. exfalso.
    assert (Hk2 : k2 ∈ filter (λ k, kw_sourceWebsiteId k = Some W) (keywords g'))
      by (rewrite Hf; apply elem_of_cons; right; by apply elem_of_cons; left).
    apply list_elem_of_filter in Hk2 as [Hk2W Hk2].
    assert (Htext2 : kw_text k2 = "Test Keyword").
    { apply (proj1 (Forall_forall _ _) Hown k2 Hk2). by rewrite Hk2W. }
    assert (Hnd' : NoDup (kw_key <$> (k :: k2 :: rest))).
    { rewrite <- Hf. by apply NoDup_fmap_filter. }
    rewrite !fmap_cons in Hnd'. apply NoDup_cons in Hnd' as [Hnot _].
    apply Hnot. apply elem_of_cons; left. unfold kw_key. congruence.
  - unfold g'. rewrite graphAfter_accepted by done.
    set (g := currentGraph (storage w)).
    destruct (mergePage_spec env data g (S (tick w)))
      as (W & ws & t1 & newKs & newKEs & newMs & newMEs & t2
          & Hup & -> & _ & _ & _ & Hms & _).
    destruct (upsertWebsite_spec _ _ _ _ _ _ _ Hup)
      as ((s & Hs & Hid & Hurl & _) & _ & _).
    assert (HownM : Forall (λ n, mn_sourceWebsiteId n = W) newMs).
    { apply Forall_forall. intros n [i Hi]%list_elem_of_lookup.
      by destruct (Forall2_lookup_l _ _ _ _ _ Hms Hi) as (? & _ & _ & _ & ? & _). }
    assert (HF : Forall2 (λ n md, mn_text n = m_text md
                                  ∧ mn_context n = m_context md)
                         newMs (validMentions data)).
    { eapply Forall2_impl; [exact Hms|]. by intros n md (? & ? & _). }
    exists W.
    destruct (ensureTestKeyword_cases env
      (mkGraphData ws
         (filter (λ k, kw_sourceWebsiteId k ≠ Some W) (keywords g) ++ newKs)
         (filter (λ m, mn_sourceWebsiteId m ≠ W) (mentions g) ++ newMs)
         (filter (λ e, e_source e ≠ W) (websiteToKeywordEdges g) ++ newKEs)
         (filter (λ e, e_source e ≠ W) (websiteToMentionEdges g) ++ newMEs)) t2)
      as [->|(? & ? & _ & _ & _ & ->)]; simpl;
      (split; [by exists s|]);
      unfold GraphStore.getMentionsForWebsite; simpl;
      by rewrite (filter_kept_and_new (λ m, mn_sourceWebsiteId m = W)).
Qed.

Lemma nodes_for_website_witness :
  let data := page "https://a.example" "A" ["react"]
                [mkMention "useState" "useState keeps local state";
                 mkMention "C" "too short to keep"] in
  let g' := graphAfter sampleEnv sampleSettings data mentionedWorld in
  (GraphStore.getKeywordsForWebsite "website-1700000000001-r1" g' = []
   ∨ ∃ k, GraphStore.getKeywordsForWebsite "website-1700000000001-r1" g' = [k]
          ∧ kw_text k = "Test Keyword")
  ∧ ∃ W,
      (∃ s, s ∈ websites g' ∧ ws_url s = url data ∧ ws_id s = W)
      ∧ Forall2 (λ n md, mn_text n = m_text md ∧ mn_context n = m_context md)
                (GraphStore.getMentionsForWebsite W g') (validMentions data).
Proof.
  intros data g'.
  assert (Hreach : reachable (currentGraph (storage mentionedWorld))).
  { exact (reachable_updateMentionPosition _ _ _
             (reachable_processPageData sampleEnv sampleSettings
                (page "https://a.example" "A" ["react"]
                   [mkMention "React Hooks" "React Hooks let you use state"])
                initialWorld reachable_empty)). }
  destruct (nodes_for_website sampleEnv sampleSettings data mentionedWorld
              Hreach eq_refl) as [Hkeywords Hmentions].
  split; [apply Hkeywords|exact Hmentions].
Defined.

(** ** The background script: tracked urls *)

Lemma excludedBy_spec url domain patterns :
  excludedBy url domain patterns = true
  ↔ ∃ excluded, excluded ∈ patterns
                ∧ ((∃ post, url = excluded +:+ post) ∨ occursIn excluded domain).
Proof.
  induction patterns as [|ex rest IH]; cbn [excludedBy].
  - split; [done|]. intros (? & Hin & _). by inversion Hin.
  - destruct (String.prefix ex url || includes domain ex) eqn:Hex.
    + split; [intros _|done]. exists ex. split; [by apply elem_of_cons; left|].
      apply orb_true_iff in Hex as [?%prefix_spec|?%includes_spec]; auto.
    + rewrite IH. apply orb_false_iff in Hex as [Hp Hi].
      split; intros (e & Hin & He); exists e.
      * split; [by apply elem_of_cons; right|done].
      * apply elem_of_cons in Hin as [->|Hin]; [|done]. exfalso.
        destruct He as [He%prefix_spec|He%includes_spec]; congruence.
Qed.

Lemma some_spec {A} (p : A → bool) (l : list A) :
  some p l = true ↔ ∃ a, a ∈ l ∧ p a = true.
Proof.
  induction l as [|a l IH]; simpl.
  - split; [done|]. intros (? & Hin & _). by inversion Hin.
  - destruct (p a) eqn:Hp.
    + split; [intros _|done]. exists a. split; [by apply elem_of_cons; left|done].
    + rewrite IH. split; intros (b & Hin & Hb); exists b.
      * split; [by apply elem_of_cons; right|done].
      * apply elem_of_cons in Hin as [->|Hin]; [congruence|done].
Qed.

(** X12.  [shouldTrackUrl] resolves to true exactly when tracking is enabled,
    the url has a host name, no excluded pattern is a prefix of the url or
    occurs in the host name, and either no tracked domain is listed or one of
    them occurs in the host name.  So an excluded pattern wins over any
    tracked domain, a url that cannot be parsed is never tracked, and with the
    initial preferences no [chrome://] url is. *)
Theorem shouldTrackUrl_spec (hostname : string → option string)
    (prefs : UserPreferences) (url : string) :
  (await (shouldTrackUrl hostname prefs url) = true
   ↔ enabled prefs = true
     ∧ extractDomain hostname url ≠ ""
     ∧ (∀ excluded, excluded ∈ excludedDomains prefs →
                    ¬ (∃ post, url = excluded +:+ post)
                    ∧ ¬ occursIn excluded (extractDomain hostname url))
     ∧ (trackedDomains prefs = []
        ∨ ∃ tracked, tracked ∈ trackedDomains prefs
                     ∧ occursIn tracked (extractDomain hostname url)))
  ∧ (hostname url = None → await (shouldTrackUrl hostname prefs url) = false)
  ∧ (∀ rest, await (shouldTrackUrl hostname defaultUserPreferences
                      ("chrome://" +:+ rest)) = false).
Proof.
  split_and!.
  - unfold shouldTrackUrl. simpl.
    destruct (enabled prefs); simpl; [|by split; [|intros [? _]]].
    destruct (Nat.eqb_spec (String.length (extractDomain hostname url)) 0)
      as [Hlen|Hlen].
    { apply length_zero_empty in Hlen. split; [done|]. by intros (_ & ? & _). }
    assert (Hdom : extractDomain hostname url ≠ "")
      by (by intros ?%length_zero_empty).
    destruct (excludedBy url _ (excludedDomains prefs)) eqn:Hex.
    { apply excludedBy_spec in Hex as (ex & Hin & Hm).
      split; [done|]. intros (_ & _ & Hall & _).
      destruct (Hall ex Hin) as [Hp Ho]. by destruct Hm. }
    assert (Hall : ∀ excluded, excluded ∈ excludedDomains prefs →
                     ¬ (∃ post, url = excluded +:+ post)
                     ∧ ¬ occursIn excluded (extractDomain hostname url)).
    { intros ex Hin. split; intros Hm;
        (assert (excludedBy url (extractDomain hostname url)
                   (excludedDomains prefs) = true) as Hc;
         [apply excludedBy_spec; exists ex; auto|congruence]). }
    destruct (trackedDomains prefs) as [|tr trs] eqn:Htr.
    { split; [|done]. intros _. split_and!; auto. }
    rewrite some_spec. split.
    + intros (a & Hin & Ha%includes_spec). split_and!; try done.
      right. by exists a.
    + intros (_ & _ & _ & [?|(a & Hin & Ha)]); [done|].
      exists a. split; [done|by apply includes_spec].
  - intros Hnone. unfold shouldTrackUrl, extractDomain. rewrite Hnone. simpl.
    by destruct (enabled prefs).
  - intros rest. set (defaults := defaultUserPreferences).
    assert (Hon : enabled defaults = true) by reflexivity.
    assert (Hex : excludedBy ("chrome://" +:+ rest)
                    (extractDomain hostname ("chrome://" +:+ rest))
                    (excludedDomains defaults) = true).
    { apply excludedBy_spec. exists "chrome://".
      split; [by apply elem_of_cons; left|]. left. by exists rest. }
    unfold shouldTrackUrl. cbn [await]. rewrite Hon, Hex. cbn [negb].
    by destruct (String.length _ =? 0).
Qed.

(** X13.  The tab listeners do not act on what [shouldTrackUrl] decides: the
    test is made on the promise the function returns, so every completed
    update of a tab that has a url makes the tab the current one and has its
    page data requested, and every activated tab with a url becomes the
    current one, whatever the preferences are. *)
Theorem tab_listeners_ignore_decision (hostname : string → option string)
    (prefs : UserPreferences) (tabId : Z) (url : string) (st : TabState) :
  url ≠ "" →
  onUpdated hostname prefs tabId true (Some url) st
  = (mkTabState (Some tabId) (Some url), RequestPageData tabId)
  ∧ onActivated hostname prefs tabId (Some url) st
    = mkTabState (Some tabId) (Some url).
Proof.
  intros Hurl. unfold onUpdated, onActivated, ToBoolean_object.
  destruct (Nat.eqb_spec (String.length url) 0) as [Hlen|Hlen]; [|done].
  by apply length_zero_empty in Hlen.
Qed.

Lemma tab_listeners_ignore_decision_witness :
  let prefs := mkUserPreferences [] ["chrome://"] false in
  await (shouldTrackUrl (λ _, Some "settings") prefs "chrome://settings")
  = false
  ∧ onUpdated (λ _, Some "settings") prefs 7 true (Some "chrome://settings")
      (mkTabState None None)
    = (mkTabState (Some 7%Z) (Some "chrome://settings"), RequestPageData 7)
  ∧ onActivated (λ _, Some "settings") prefs 7 (Some "chrome://settings")
      (mkTabState None None)
    = mkTabState (Some 7%Z) (Some "chrome://settings").
Proof.
  intros prefs. split; [reflexivity|].
  apply (tab_listeners_ignore_decision (λ _, Some "settings") prefs 7
           "chrome://settings" (mkTabState None None)).
  discriminate.
Defined.

Lemma shouldTrackUrl_spec_witness :
  await (shouldTrackUrl (λ _, None) defaultUserPreferences "not a url") = false.
Proof.
  apply (proj1 (proj2 (shouldTrackUrl_spec (λ _, None) defaultUserPreferences
                         "not a url"))).
  reflexivity.
Defined.

(** ** The layout hook: the seed hash *)

Lemma toInt32_wrap z : ∃ k, toInt32 z = (z + 2 ^ 32 * k)%Z.
Proof.
  exists (- ((z + 2 ^ 31) / 2 ^ 32))%Z. unfold toInt32.
  pose proof (Z.div_mod (z + 2 ^ 31) (2 ^ 32) ltac:(done)). lia.
Qed.

Lemma toInt32_congr a k : toInt32 (a + 2 ^ 32 * k) = toInt32 a.
Proof.
  unfold toInt32. f_equal.
  replace (a + 2 ^ 32 * k + 2 ^ 31)%Z with (a + 2 ^ 31 + k * 2 ^ 32)%Z by lia.
  apply Z_mod_plus_full.
Qed.

Lemma hashStep_polynomial acc c :
  hashStep (toInt32 acc) c = toInt32 (31 * acc + Z.of_N (N_of_ascii c)).
Proof.
  unfold hashStep. rewrite Z.shiftl_mul_pow2 by done.
  destruct (toInt32_wrap acc) as [k1 ->].
  destruct (toInt32_wrap ((acc + 2 ^ 32 * k1) * 2 ^ 5)) as [k2 ->].
  replace ((acc + 2 ^ 32 * k1) * 2 ^ 5 + 2 ^ 32 * k2 - (acc + 2 ^ 32 * k1)
           + Z.of_N (N_of_ascii c))%Z
    with (31 * acc + Z.of_N (N_of_ascii c) + 2 ^ 32 * (31 * k1 + k2))%Z by lia.
  apply toInt32_congr.
Qed.

Lemma hashLoop_polynomial seed : ∀ acc,
  hashLoop seed (toInt32 acc) = toInt32 (polynomial seed acc).
Proof.
  induction seed as [|c seed IH]; intros acc; simpl; [done|].
  by rewrite hashStep_polynomial, IH.
Qed.

(** X14.  The hash of a seed is the polynomial of its character codes in
    base 31 (each round multiplies by 31 and adds the next code), wrapped to a
    signed 32-bit integer; its magnitude, which the position is computed
    from, is at most 2^31. *)
Theorem hash_is_polynomial (seed : string) :
  hashLoop seed 0 = toInt32 (polynomial seed 0)
  ∧ (- 2 ^ 31 ≤ hashLoop seed 0 < 2 ^ 31)%Z
  ∧ (0 ≤ Z.abs (hashLoop seed 0) ≤ 2 ^ 31)%Z.
Proof.
  assert (Hrange : (- 2 ^ 31 ≤ hashLoop seed 0 < 2 ^ 31)%Z)
    by (apply hashLoop_range; lia).
  split_and!; try lia.
  change 0%Z with (toInt32 0) at 1. apply hashLoop_polynomial.
Qed.

(** ** The layout hook: what a load shows *)

Section shown.
Context (fl : Q → Q) (extractDomain : string → string).
Context {Simulation : Type}.
Context (d3_forceSimulation :
           list SimNode → list SimLink → list FlowNode → Dimensions → Simulation).
Context (d3_tick : Simulation → Simulation).
Context (d3_nodes : Simulation → list SimNode).

(** X15.  With no layout cached under the cache key, a load that finds no
    stored graph, or a stored graph without websites (whatever keywords it
    has), shows no nodes and no edges, runs no simulation tick and caches
    nothing. *)
Theorem empty_graph_layout cacheKey dimensions stored st :
  layoutStorage st !! cacheName cacheKey = None →
  stored = None ∨ (∃ g, stored = Some g ∧ websites g = []) →
  let st' := loadHistory fl extractDomain d3_forceSimulation d3_tick d3_nodes
               cacheKey dimensions stored st in
  nodes st' = [] ∧ edges st' = [] ∧ isLoading st' = false
  ∧ simulationTicks st' = simulationTicks st
  ∧ layoutStorage st' = layoutStorage st.
Proof.
  intros Hmiss Hempty. unfold loadHistory. simpl. rewrite Hmiss.
  destruct Hempty as [->|(g & -> & Hws)]; [done|]. by rewrite Hws.
Qed.

End shown.

Lemma empty_graph_layout_witness :
  let st' := loadHistory (λ q, q) (λ u, u) stillSimulation (λ s, s) (λ s, s)
               "1700000000000" sampleDimensions
               (Some (mkGraphData []
                        [mkKeywordNode "k1" "orphan" None None] [] [] []))
               (mkHookState ∅ [] [] true 0) in
  nodes st' = [] ∧ edges st' = [] ∧ isLoading st' = false
  ∧ simulationTicks st' = 0 ∧ layoutStorage st' = ∅.
Proof.
  intros st'.
  apply (empty_graph_layout (λ q, q) (λ u, u) stillSimulation (λ s, s)
           (λ s, s) "1700000000000" sampleDimensions _
           (mkHookState ∅ [] [] true 0)).
  - reflexivity.
  - right. eexists. split; reflexivity.
Defined.


(** ** The merge: when keyword edges stay consistent *)

(** X17.  A merge into a graph in which no keyword node names an owner keeps
    keyword edges consistent: if every keyword edge arrived at an existing
    keyword node before, every keyword edge does so afterwards, the edge to a
    newly inserted test keyword included. *)
Theorem merge_keeps_keyword_targets env cfg data w :
  let g := currentGraph (storage w) in
  keywordTargetsExist g →
  Forall (λ k, kw_sourceWebsiteId k = None) (keywords g) →
  keywordTargetsExist (graphAfter env cfg data w).
Proof.
  intros g Htgt Hfree.
  destruct (accepted env cfg data (tick w)) eqn:Hacc;
    [|by rewrite graphAfter_skipped].
  rewrite graphAfter_accepted by done. fold g.
  destruct (mergePage_spec env data g (S (tick w)))
    as (W & ws & t1 & newKs & newKEs & newMs & newMEs & t2
        & Hup & -> & _ & Hes & _).
  destruct (ensureTestKeyword_cases env
    (mkGraphData ws
       (filter (λ k, kw_sourceWebsiteId k ≠ Some W) (keywords g) ++ newKs)
       (filter (λ m, mn_sourceWebsiteId m ≠ W) (mentions g) ++ newMs)
       (filter (λ e, e_source e ≠ W) (websiteToKeywordEdges g) ++ newKEs)
       (filter (λ e, e_source e ≠ W) (websiteToMentionEdges g) ++ newMEs)) t2)
    as [->|(w0 & rest & _ & _ & _ & ->)]; unfold keywordTargetsExist; simpl.
  - apply Forall_app. split.
    + apply Forall_forall. intros e [_ He]%list_elem_of_filter.
      destruct (proj1 (Forall_forall _ _) Htgt e He) as (k & Hk & Hid).
      exists k. split; [|done]. apply elem_of_app; left.
      apply list_elem_of_filter. split; [|done].
      by rewrite (proj1 (Forall_forall _ _) Hfree k Hk).
    + apply Forall_forall. intros e [i Hi]%list_elem_of_lookup.
      destruct (Forall2_lookup_l _ _ _ _ _ Hes Hi) as (? & _ & _ & k & Hk & Hid & _).
      by exists k.
  - constructor; [|constructor]. eexists. split; [by apply elem_of_cons; left|].
    done.
Qed.

Lemma merge_keeps_keyword_targets_witness :
  keywordTargetsExist
    (graphAfter sampleEnv sampleSettings
       (page "https://b.example" "B" ["shadcn"; "vite"] [])
       (mkWorld (mkStorage (Some uiGraph) None) 9)).
Proof.
  apply (merge_keeps_keyword_targets sampleEnv sampleSettings
           (page "https://b.example" "B" ["shadcn"; "vite"] [])
           (mkWorld (mkStorage (Some uiGraph) None) 9)).
  - apply Forall_forall. intros e He. apply list_elem_of_In in He.
    vm_compute in He. destruct He as [<-|[<-|[]]].
    + exists (mkKeywordNode "keyword-1700000000003-r3" "shadcn" None None).
      split; [apply list_elem_of_In; vm_compute; auto|reflexivity].
    + exists (mkKeywordNode "keyword-1700000000005-r5" "tailwind" None None).
      split; [apply list_elem_of_In; vm_compute; auto|reflexivity].
  - apply Forall_forall. intros k Hk. apply list_elem_of_In in Hk.
    vm_compute in Hk. destruct Hk as [<-|[<-|[]]]; reflexivity.
Defined.

(** ** The background script: the savePageData message *)

(** X18.  What the [savePageData] handler answers and what it stores.  A
    message without a tab id, or with the tab id 0, is refused and nothing
    changes.  With no preferences or no API key set the handler answers
    success and the stored graph is left as it was.  With both set, a page
    the classifier rejects at the handler's own call is refused and the
    graph is left as it was; a page it accepts there is answered with
    success whether or not the second call, inside [processPageData],
    accepts it too, and the graph changes only if that one does. *)
Theorem savePageData_answers env cfg tabId data w :
  let out := savePageData env cfg tabId data w in
  (tabId = None ∨ tabId = Some 0%Z →
   out = (w, mkResponse false (Some "No tab ID")))
  ∧ (tabId ≠ None → tabId ≠ Some 0%Z →
     (preferences cfg = "" ∨ geminiApiKey cfg = "" →
      success out.2 = true ∧ storage out.1 = storage w)
     ∧ (preferences cfg ≠ "" → geminiApiKey cfg ≠ "" →
        (Gemini_relevant env (tick w) (handlerContent data) = false →
         success out.2 = false ∧ storage out.1 = storage w)
        ∧ (Gemini_relevant env (tick w) (handlerContent data) = true →
           success out.2 = true
           ∧ (Gemini_relevant env (S (tick w)) (pageContent data) = false →
              storage out.1 = storage w)
           ∧ (Gemini_relevant env (S (tick w)) (pageContent data) = true →
              graphData (storage out.1)
              = Some (mergePage env data (currentGraph (storage w))
                        (S (S (tick w)))).1)))).
Proof.
  intros out. unfold out, savePageData. split.
  { by intros [->| ->]. }
  intros Hsome Hzero.
  destruct tabId as [[|id|id]|]; try done.
  - split.
    + intros Hunset.
      assert (Hskip : processPageData env cfg data w = w).
      { unfold processPageData, accepted.
        destruct Hunset as [->| ->]; simpl; by rewrite ?andb_false_r. }
      destruct Hunset as [->| ->]; simpl; rewrite ?andb_false_r; simpl;
        by rewrite ?Hskip.
    + intros Hp Hk.
      assert (Hset : negb (String.length (preferences cfg) =? 0)
                     && negb (String.length (geminiApiKey cfg) =? 0) = true).
      { destruct (Nat.eqb_spec (String.length (preferences cfg)) 0)
          as [?%length_zero_empty|]; [done|].
        by destruct (Nat.eqb_spec (String.length (geminiApiKey cfg)) 0)
          as [?%length_zero_empty|]. }
      rewrite Hset. split; [by intros ->|]. intros ->. split; [done|].
      unfold processPageData, accepted. simpl. rewrite Hset. simpl.
      split; intros ->; [done|].
      by destruct (mergePage _ _ _ _) as [g t].
  - split.
    + intros Hunset.
      assert (Hskip : processPageData env cfg data w = w).
      { unfold processPageData, accepted.
        destruct Hunset as [->| ->]; simpl; by rewrite ?andb_false_r. }
      destruct Hunset as [->| ->]; simpl; rewrite ?andb_false_r; simpl;
        by rewrite ?Hskip.
    + intros Hp Hk.
      assert (Hset : negb (String.length (preferences cfg) =? 0)
                     && negb (String.length (geminiApiKey cfg) =? 0) = true).
      { destruct (Nat.eqb_spec (String.length (preferences cfg)) 0)
          as [?%length_zero_empty|]; [done|].
        by destruct (Nat.eqb_spec (String.length (geminiApiKey cfg)) 0)
          as [?%length_zero_empty|]. }
      rewrite Hset. split; [by intros ->|]. intros ->. split; [done|].
      unfold processPageData, accepted. simpl. rewrite Hset. simpl.
      split; intros ->; [done|].
      by destruct (mergePage _ _ _ _) as [g t].
Qed.

Lemma savePageData_answers_witness :
  let env := mkEnv (λ t, 1700000000000 + Z.of_nat t)%Z (λ t, "r" +:+ pretty t)
               (λ t _, bool_decide (t = 0)) in
  let out := savePageData env sampleSettings (Some 3%Z)
               (page "https://a.example" "A" ["rocq"] []) initialWorld in
  success out.2 = true ∧ storage out.1 = storage initialWorld.
Proof.
  intros env out.
  destruct (proj2 (savePageData_answers env sampleSettings (Some 3%Z)
                     (page "https://a.example" "A" ["rocq"] []) initialWorld))
    as [_ Hset]; [discriminate..|].
  destruct Hset as [_ Haccepted]; [discriminate..|].
  destruct (Haccepted eq_refl) as (Hsuccess & Hskipped & _).
  split; [exact Hsuccess|]. apply Hskipped. reflexivity.
Defined.

(** ** The layout hook: after the cache is cleared *)


